(** * Karpenter: AL2 AMI family and the provisioning controller

    A shallow embedding of

    - [pkg/cloudprovider/aws/amifamily/al2.go] (package [amifamily]): the
      choice of the container runtime made for the AL2 user data;
    - the provisioning controller (package [provisioning]): [getPods],
      [schedule], [getDaemonOverhead], [launch], [bind], [provision] and the
      loop started by [NewProvisioner].

    Go values are modelled by records, [nil]-able pointers and errors by
    [option], Go maps by [gmap].  Calls that leave the process (cluster
    store, cloud provider, batcher, scheduler) are fields of a class
    [Environment] over an abstract world; every call is recorded in a trace of
    [Event]s, so that "no Create call is made" is a statement about the
    trace. *)

From Stdlib Require Import ZArith Ascii.
From stdpp Require Import base option list gmap strings numbers.

Open Scope string_scope.
Open Scope Z_scope.
Open Scope list_scope.

(** ** Kubernetes core values *)

(** [resource.Quantity]: an exact decimal amount, kept here as an integer
    count of the smallest unit. *)
Definition Quantity := Z.

Definition ResourceName := string.

(** [v1.ResourceList], a Go [map[ResourceName]Quantity]. *)
Abbreviation ResourceList := (gmap string Z).

(** Indexing a Go map at an absent key yields the zero value. *)
Definition rl_index (r : ResourceList) (k : ResourceName) : Quantity :=
  default 0 (r !! k).

Record Taint := mkTaint {
  taint_Key : string;
  taint_Value : string;
  taint_Effect : string
}.

Record Toleration := mkToleration {
  tol_Key : string;
  tol_Operator : string;
  tol_Value : string;
  tol_Effect : string
}.

Definition TolerationOpEqual : string := "Equal".
Definition TaintEffectNoSchedule : string := "NoSchedule".
(** [v1.TaintNodeNotReady] *)
Definition TaintNodeNotReady : string := "node.kubernetes.io/not-ready".

Record TypeMeta := mkTypeMeta {
  tm_Kind : string;
  tm_APIVersion : string
}.

Record ObjectMeta := mkObjectMeta {
  om_Namespace : string;
  om_Name : string;
  om_Labels : gmap string string
}.

Record Container := mkContainer {
  c_Name : string;
  c_Requests : gmap string Z
}.

Record PodSpec := mkPodSpec {
  ps_NodeName : string;
  ps_Tolerations : list Toleration;
  ps_NodeSelector : gmap string string;
  ps_Containers : list Container;
  ps_Volumes : list string
}.

Record Pod := mkPod {
  pod_TypeMeta : TypeMeta;
  pod_ObjectMeta : ObjectMeta;
  pod_Spec : PodSpec
}.

Definition pod_Namespace (p : Pod) : string := om_Namespace (pod_ObjectMeta p).
Definition pod_Name (p : Pod) : string := om_Name (pod_ObjectMeta p).

Definition TypeMeta_zero : TypeMeta := mkTypeMeta "" "".
Definition ObjectMeta_zero : ObjectMeta := mkObjectMeta "" "" ∅.

Record NodeSpec := mkNodeSpec {
  ns_Taints : list Taint;
  ns_ProviderID : string
}.

Record Node := mkNode {
  node_ObjectMeta : ObjectMeta;
  node_Spec : NodeSpec
}.

Definition node_Name (n : Node) : string := om_Name (node_ObjectMeta n).

Record ObjectReference := mkObjectReference { or_Name : string }.

Record Binding := mkBinding {
  b_TypeMeta : TypeMeta;
  b_ObjectMeta : ObjectMeta;
  b_Target : ObjectReference
}.

(** [appsv1.DaemonSet]: only [Spec.Template.Spec] is read. *)
Record DaemonSet := mkDaemonSet {
  ds_ObjectMeta : ObjectMeta;
  ds_Template_Spec : PodSpec
}.

Record NodeSelectorRequirement := mkNSR {
  nsr_Key : string;
  nsr_Operator : string;
  nsr_Values : list string
}.

(** ** Provisioning API ([v1alpha5]) *)

Record Requirements := mkRequirements {
  Requirements_list : list NodeSelectorRequirement
}.

Record KubeletConfiguration := mkKubeletConfiguration {
  kc_ClusterDNS : list string
}.

Record Limits := mkLimits { Limits_Resources : gmap string Z }.

(** [Constraints], embedded in [ProvisionerSpec]; [Provider] is the raw,
    provider-opaque payload. *)
Record Constraints := mkConstraints {
  Labels : gmap string string;
  Taints : list Taint;
  StartupTaints : list Taint;
  Requirements_ : Requirements;
  KubeletConfiguration_ : option KubeletConfiguration;
  Provider : option string
}.

Record ProvisionerSpec := mkProvisionerSpec {
  Constraints_ : Constraints;
  Limits_ : option Limits
}.

Record ProvisionerStatus := mkProvisionerStatus {
  Resources : gmap string Z
}.

Record Provisioner := mkProvisionerObj {
  prov_ObjectMeta : ObjectMeta;
  Spec : ProvisionerSpec;
  Status : ProvisionerStatus
}.

Definition prov_Name (p : Provisioner) : string := om_Name (prov_ObjectMeta p).

(** [types.NamespacedName], as built by [client.ObjectKeyFromObject]. *)
Record ObjectKey := mkObjectKey {
  key_Namespace : string;
  key_Name : string
}.

Definition ObjectKeyFromObject (m : ObjectMeta) : ObjectKey :=
  mkObjectKey (om_Namespace m) (om_Name m).

(** [v1alpha5.NotReadyTaintKey] *)
Definition NotReadyTaintKey : string := "karpenter.sh/not-ready".

(** ** Cloud provider values *)

(** [cloudprovider.InstanceType] is an interface of getters; a value of the
    interface is modelled by what its getters return. *)
Record InstanceType := mkInstanceType {
  it_Name : string;
  it_Resources : gmap string Z;
  it_Architecture : string
}.

Record NodeTemplate := mkNodeTemplate {
  nt_Provider : option string;
  nt_Labels : gmap string string;
  nt_Taints : list Taint;
  nt_Requirements : Requirements;
  nt_KubeletConfiguration : option KubeletConfiguration
}.

Record NodeRequest := mkNodeRequest {
  InstanceTypeOptions : list InstanceType;
  Template : NodeTemplate
}.

(** [scheduling.Node]: what [Solve] hands to the launcher. *)
Record SNode := mkSNode {
  sn_Provisioner : Provisioner;
  sn_InstanceTypeOptions : list InstanceType;
  sn_Pods : list Pod
}.

(** [&v1.Pod{Spec: daemonSet.Spec.Template.Spec}] *)
Definition daemon_pod (daemonSet : DaemonSet) : Pod :=
  mkPod TypeMeta_zero ObjectMeta_zero (ds_Template_Spec daemonSet).

Definition Provisioner_zero : Provisioner :=
  mkProvisionerObj ObjectMeta_zero
    (mkProvisionerSpec (mkConstraints ∅ [] [] (mkRequirements []) None None) None)
    (mkProvisionerStatus ∅).

#[global] Instance Provisioner_inhabited : Inhabited Provisioner :=
  populate Provisioner_zero.

(** * Package [amifamily]: AL2 *)

Module resources.
(** Modelled from the spec: [resources.IsZero] of [pkg/utils/resources] is
    not among the sources; it tells whether a quantity is zero. *)
Definition IsZero (q : Quantity) : bool := q =? 0.
End resources.

Module bootstrap.
Record Options := mkOptions {
  ClusterName : string;
  ClusterEndpoint : string;
  AWSENILimitedPodDensity : bool;
  KubeletConfig : option KubeletConfiguration;
  Taints : list Taint;
  Labels : gmap string string;
  CABundle : option string
}.

Record EKS := mkEKS {
  ContainerRuntime : string;
  eks_Options : Options
}.
End bootstrap.

Module amifamily.

(** The resolver options embedded (by pointer) in every AMI family. *)
Record Options := mkOptions {
  ClusterName : string;
  ClusterEndpoint : string;
  AWSENILimitedPodDensity : bool
}.

(** [type AL2 struct { *Options }] *)
Record AL2 := mkAL2 { al2_Options : option Options }.

Section AL2.
(** The extended resource names of [apis/v1alpha1], which the sources at
    hand only mention by name. *)
Variables ResourceNVIDIAGPU ResourceAMDGPU ResourceAWSNeuron : ResourceName.

(** [func (a AL2) containerRuntime(instanceTypes) string].  Indexing an
    empty slice at 0 panics: [None]. *)
Definition containerRuntime (a : AL2) (instanceTypes : list InstanceType)
  : option string :=
  match instanceTypes !! 0%nat with
  | None => None
  | Some first =>
      let instanceResources := it_Resources first in
      if resources.IsZero (rl_index instanceResources ResourceNVIDIAGPU) &&
         resources.IsZero (rl_index instanceResources ResourceAMDGPU) &&
         resources.IsZero (rl_index instanceResources ResourceAWSNeuron)
      then Some "containerd"
      else Some "dockerd"
  end.

(** [func (a AL2) UserData(...) bootstrap.Bootstrapper].  The fields of the
    composite literal are evaluated in order, so an empty instance type list
    or a nil [Options] pointer panics: [None]. *)
Definition UserData (a : AL2) (kubeletConfig : option KubeletConfiguration)
    (taints : list Taint) (labels : gmap string string)
    (caBundle : option string) (instanceTypes : list InstanceType)
  : option bootstrap.EKS :=
  match containerRuntime a instanceTypes with
  | None => None
  | Some runtime =>
      match al2_Options a with
      | None => None
      | Some o =>
          Some (bootstrap.mkEKS runtime
                  (bootstrap.mkOptions (ClusterName o) (ClusterEndpoint o)
                     (AWSENILimitedPodDensity o) kubeletConfig taints
                     labels caBundle))
      end
  end.

(** [v1alpha5.ArchitectureArm64], which the sources at hand only mention by
    name. *)
Variable ArchitectureArm64 : string.

(** [func (a AL2) SSMAlias(version, instanceType) string]: the AMI alias
    to query SSM with. *)
Definition SSMAlias (a : AL2) (version : string) (instanceType : InstanceType)
  : string :=
  let amiSuffix :=
    if negb (resources.IsZero (rl_index (it_Resources instanceType) ResourceNVIDIAGPU)) ||
       negb (resources.IsZero (rl_index (it_Resources instanceType) ResourceAWSNeuron))
    then "-gpu"
    else if String.eqb (it_Architecture instanceType) ArchitectureArm64
    then "-" +:+ it_Architecture instanceType
    else "" in
  "/aws/service/eks/optimized-ami/" +:+ version +:+ "/amazon-linux-2" +:+
  amiSuffix +:+ "/recommended/image_id".

(** [func (a AL2) RootBlockDevice() *string] *)
Definition RootBlockDevice (a : AL2) : string := "/dev/xvda".
End AL2.

End amifamily.

(** * Package [provisioning] *)

(** ** Errors *)

(** [metav1.StatusReason] of an API error. *)
Inductive StatusReason :=
| StatusReasonAlreadyExists
| StatusReasonNotFound
| StatusReasonConflict
| StatusReasonUnknown.

(** Go [error] values: an API status error, a plain message
    ([fmt.Errorf] without [%w]), a message wrapping a cause
    ([fmt.Errorf("..., %w", err)]) and a [multierr] aggregate. *)
#[warnings="-register-all"]
Inductive error :=
| StatusError (reason : StatusReason) (message : string)
| errorString (s : string)
| wrapError (msg : string) (err : error)
| multiError (errs : list error).

(** A Go [(value, error)] return. *)
Inductive result (A : Type) :=
| Ok (a : A)
| Err (e : error).
Arguments Ok {A} a.
Arguments Err {A} e.

(** [errors.ReasonForError]: the reason of the status error found along the
    [%w] chain, [Unknown] when there is none. *)
Fixpoint ReasonForError (e : error) : StatusReason :=
  match e with
  | StatusError r _ => r
  | wrapError _ e' => ReasonForError e'
  | _ => StatusReasonUnknown
  end.

(** [errors.IsAlreadyExists] *)
Definition IsAlreadyExists (e : error) : bool :=
  match ReasonForError e with
  | StatusReasonAlreadyExists => true
  | _ => false
  end.

(** [multierr.Combine]: nil entries are dropped; no error left is nil, one
    is that error. *)
Definition multierr_Combine (errs : list (option error)) : option error :=
  match omap id errs with
  | [] => None
  | [e] => Some e
  | es => Some (multiError es)
  end.

(** ** Calls and log lines observed from outside *)

Inductive Level := Debug | Info | Error.

Inductive Event :=
| EvBatcherWait
| EvCondBroadcast
| EvListPods (fieldNodeName : string)
| EvListProvisioners
| EvListDaemonSets
| EvGetProvisioner (key : ObjectKey)
| EvGetRequirements (provider : option string)
| EvGetInstanceTypes (provider : option string)
| EvInject (pod : Pod)
| EvNewTopology
| EvSolve (pods : list Pod)
| EvCloudCreate (req : NodeRequest)
| EvNodesCreate (node : Node)
| EvPodsBind (namespace : string) (b : Binding)
| EvPodShouldSchedule (pod : Pod) (node : Node)
| EvLog (level : Level) (msg : string) (err : option error).

(** A pointer to a Provisioner: [schedule] takes the address of the [i]th
    item of the list it loaded, so an address is an index. *)
Definition ProvisionerPtr := nat.

(** What [scheduling.NewScheduler] is given. *)
Record SchedulerArgs (Topology : Type) := mkSchedulerArgs {
  sa_provisioners : list ProvisionerPtr;
  sa_deref : ProvisionerPtr → Provisioner;
  sa_topology : Topology;
  sa_instanceTypes : gmap string (list InstanceType);
  sa_daemonOverhead : gmap nat (gmap string Z)
}.
Arguments mkSchedulerArgs {Topology}.

(** ** Helpers of the repository whose code is not among the sources

    They are pure functions of their arguments and are taken as given. *)
Class Helpers := {
  (** [validate(pod)] *)
  validate : Pod → option error;
  (** [isProvisionable(pod)] *)
  isProvisionable : Pod → bool;
  (** [Taints.Tolerates(pod, additional...)] *)
  Taints_Tolerates : list Taint → Pod → list Toleration → option error;
  (** [Limits.ExceededBy(resources)], a method on a pointer that may be nil *)
  Limits_ExceededBy : option Limits → gmap string Z → option error;
  (** [Requirements.Compatible(other)] *)
  Requirements_Compatible : Requirements → Requirements → option error;
  NewPodRequirements : Pod → Requirements;
  NewRequirements : list NodeSelectorRequirement → Requirements;
  Requirements_Add :
    Requirements → list NodeSelectorRequirement → Requirements;
  NewLabelRequirements : gmap string string → Requirements;
  (** [cloudprovider.Requirements(instanceTypes)] *)
  cloudprovider_Requirements : list InstanceType → Requirements;
  (** [functional.UnionStringMaps(maps...)] *)
  UnionStringMaps : list (gmap string string) → gmap string string;
  (** [resources.RequestsForPods(pods...)] *)
  RequestsForPods : list Pod → gmap string Z;
  (** [Constraints.ToNode()] *)
  ToNode : Constraints → Node;
  (** [mergo.Merge(dst, src)]: the merged [dst], or an error *)
  mergo_Merge : Node → Node → result Node
}.

(** [v1alpha5.ProvisionerNameLabelKey] *)
Definition ProvisionerNameLabelKey : string := "karpenter.sh/provisioner-name".

(** ** The world outside the controller

    [W] is the state of everything the controller talks to.  Reads of the
    cluster store and of the cloud provider's catalogue are functions of the
    world; calls that change it, or that block, return the next world.  The
    world also holds whether the context [running] has been cancelled, which
    may happen during any call that returns a next world. *)
Class Environment (W : Type) := {
  Topology : Type;
  (** [running.Err() != nil] *)
  ctx_cancelled : W → bool;
  (** [Batcher.Wait()] *)
  Batcher_Wait : W → string * W;
  (** the Pod, Provisioner and DaemonSet objects of the store, or the error
      of a failed List *)
  kube_pods : W → result (list Pod);
  kube_provisioners : W → result (list Provisioner);
  kube_daemonsets : W → result (list DaemonSet);
  (** [kubeClient.Get(ctx, key, &Provisioner{})] *)
  kube_get_provisioner : W → ObjectKey → result Provisioner;
  (** [VolumeTopology.validatePersistentVolumeClaims(ctx, pod)] *)
  validatePersistentVolumeClaims : W → Pod → option error;
  (** [VolumeTopology.Inject(ctx, pod)]: the pod with the volume
      requirements added, or an error *)
  volumeTopology_Inject : W → Pod → result Pod;
  cloud_GetRequirements : W → option string → result Requirements;
  cloud_GetInstanceTypes : W → option string → result (list InstanceType);
  (** [scheduling.NewTopology(ctx, kubeClient, cluster, provisioners, pods)] *)
  NewTopology :
    W → list ProvisionerPtr → (ProvisionerPtr → Provisioner) → list Pod →
    result Topology;
  (** [scheduling.NewScheduler(...).Solve(ctx, pods)] *)
  Solve : W → SchedulerArgs Topology → list Pod → result (list SNode) * W;
  (** [cloudProvider.Create(ctx, nodeRequest)] *)
  cloud_Create : W → NodeRequest → result Node * W;
  (** [coreV1Client.Nodes().Create(ctx, node, opts)] *)
  Nodes_Create : W → Node → result Node * W;
  (** [coreV1Client.Pods(namespace).Bind(ctx, binding, opts)] *)
  Pods_Bind : W → string → Binding → option error * W
}.

Section Provisioner.
Context {W : Type} `{Env : Environment W} `{Hlp : Helpers}.

(** ** Computations: a function of the world that returns a value, the next
    world and the events it produced, in order. *)
Definition M (A : Type) : Type := W → A * W * list Event.

Definition ret {A} (a : A) : M A := λ w, (a, w, []).

Definition bnd {A B} (m : M A) (f : A → M B) : M B := λ w,
  let '(a, w1, t1) := m w in
  let '(b, w2, t2) := f a w1 in
  (b, w2, t1 ++ t2).

Notation "'let*' x ':=' m 'in' k" := (bnd m (λ x, k))
  (at level 10, x name, m at level 100, k at level 200, only parsing).
Notation "m >> k" := (bnd m (λ _, k))
  (at level 100, k at level 200, right associativity, only parsing).

Definition emit (e : Event) : M unit := λ w, (tt, w, [e]).
Definition read {A} (f : W → A) : M A := λ w, (f w, w, []).
Definition call {A} (f : W → A * W) : M A := λ w, let '(a, w') := f w in (a, w', []).

(** [kubeClient.List(ctx, &podList, client.MatchingFields{"spec.nodeName": v})]:
    the store answers with the pods whose field has that value. *)
Definition kubeClient_List_pods (nodeName : string) (w : W) : result (list Pod) :=
  match kube_pods w with
  | Ok items => Ok (filter (λ p, ps_NodeName (pod_Spec p) = nodeName) items)
  | Err e => Err e
  end.

(** [workqueue.ParallelizeUntil(ctx, n, n, doWorkPiece)] over the [n]
    elements of [work]: each piece is handed to a worker, which runs it unless
    the context is done when it picks the piece up
    ([select { case <-ctx.Done(): return; default: doWorkPiece(i) }]).
    Interleavings of the workers are not modelled: the pieces are run one
    after the other, in index order, each to its end.  This is one of the
    runs of the workers; [fans] below gives them all. *)
Fixpoint ParallelizeUntil {A} (work : list A) (doWorkPiece : A → M unit) : M unit :=
  match work with
  | [] => ret tt
  | x :: rest =>
      let* stop := read ctx_cancelled in
      (if stop then ret tt else doWorkPiece x) >>
      ParallelizeUntil rest doWorkPiece
  end.

(** The body of the loop of [getPods], from item [i] on; [pods] is the slice
    built so far. *)
Fixpoint getPods_range (items : list Pod) (pods : list Pod) : M (list Pod) :=
  match items with
  | [] => ret pods
  | pod :: rest =>
      let* pvc := read (λ w, validatePersistentVolumeClaims w pod) in
      match multierr_Combine [validate pod; pvc] with
      | Some errs =>
          emit (EvLog Debug "Unable to batch pod, %s" (Some errs)) >>
          getPods_range rest pods
      | None =>
          if isProvisionable pod
          then getPods_range rest (pods ++ [pod])
          else getPods_range rest pods
      end
  end.

(** [func (p *Provisioner) getPods(ctx) ([]*v1.Pod, error)] *)
Definition getPods : M (result (list Pod)) :=
  emit (EvListPods "") >>
  let* r := read (kubeClient_List_pods "") in
  match r with
  | Err e => ret (Err (wrapError "listing pods" e))
  | Ok items =>
      let* pods := getPods_range items [] in
      ret (Ok pods)
  end.

(** The daemons kept for one provisioner by the inner loop of
    [getDaemonOverhead]; [daemons] is the slice built so far. *)
Fixpoint getDaemonOverhead_daemons (provisioner : Provisioner)
    (daemonSets : list DaemonSet) (daemons : list Pod) : list Pod :=
  match daemonSets with
  | [] => daemons
  | daemonSet :: rest =>
      let p := daemon_pod daemonSet in
      match Taints_Tolerates (Taints (Constraints_ (Spec provisioner))) p [] with
      | Some _ => getDaemonOverhead_daemons provisioner rest daemons
      | None =>
          match Requirements_Compatible (Requirements_ (Constraints_ (Spec provisioner)))
                  (NewPodRequirements p) with
          | Some _ => getDaemonOverhead_daemons provisioner rest daemons
          | None => getDaemonOverhead_daemons provisioner rest (daemons ++ [p])
          end
      end
  end.

(** The outer loop of [getDaemonOverhead]; [overhead] is the map filled so
    far, keyed by the provisioner's address. *)
Fixpoint getDaemonOverhead_range (deref : ProvisionerPtr → Provisioner)
    (daemonSets : list DaemonSet) (provisioners : list ProvisionerPtr)
    (overhead : gmap nat (gmap string Z)) : gmap nat (gmap string Z) :=
  match provisioners with
  | [] => overhead
  | provisioner :: rest =>
      let daemons := getDaemonOverhead_daemons (deref provisioner) daemonSets [] in
      getDaemonOverhead_range deref daemonSets rest
        (<[provisioner := RequestsForPods daemons]> overhead)
  end.

(** [func (p *Provisioner) getDaemonOverhead(ctx, provisioners)
     (map[*v1alpha5.Provisioner]v1.ResourceList, error)] *)
Definition getDaemonOverhead (deref : ProvisionerPtr → Provisioner)
    (provisioners : list ProvisionerPtr)
  : M (result (gmap nat (gmap string Z))) :=
  emit EvListDaemonSets >>
  let* r := read kube_daemonsets in
  match r with
  | Err e => ret (Err (wrapError "listing daemonsets" e))
  | Ok daemonSetList =>
      ret (Ok (getDaemonOverhead_range deref daemonSetList provisioners ∅))
  end.

(** The loop of [schedule] over [provisionerList.Items]: [items] are the
    items still to visit, [instanceTypes] the map filled so far and [visited]
    the items already visited, as the loop left them (it writes [Spec.Labels]
    and [Spec.Requirements] through the pointer it appends). *)
Fixpoint schedule_range (items : list Provisioner)
    (instanceTypes : gmap string (list InstanceType)) (visited : list Provisioner)
  : M (result (gmap string (list InstanceType) * list Provisioner)) :=
  match items with
  | [] => ret (Ok (instanceTypes, visited))
  | provisioner :: rest =>
      let spec := Constraints_ (Spec provisioner) in
      emit (EvGetRequirements (Provider spec)) >>
      let* r := read (λ w, cloud_GetRequirements w (Provider spec)) in
      match r with
      | Err e => ret (Err (wrapError "getting provider requirements" e))
      | Ok cloudproviderRequirements =>
          emit (EvGetInstanceTypes (Provider spec)) >>
          let* r := read (λ w, cloud_GetInstanceTypes w (Provider spec)) in
          match r with
          | Err e => ret (Err (wrapError "getting instance types" e))
          | Ok instanceType =>
              let name := prov_Name provisioner in
              let types := default [] (instanceTypes !! name) ++ instanceType in
              let instanceTypes := <[name := types]> instanceTypes in
              let instanceTypeRequirements := cloudprovider_Requirements types in
              let labels :=
                UnionStringMaps [Labels spec; {[ProvisionerNameLabelKey := name]}] in
              let requirements :=
                Requirements_Add
                  (Requirements_Add
                     (Requirements_Add
                        (NewRequirements (Requirements_list (Requirements_ spec)))
                        (Requirements_list (NewLabelRequirements labels)))
                     (Requirements_list cloudproviderRequirements))
                  (Requirements_list instanceTypeRequirements) in
              let provisioner :=
                mkProvisionerObj (prov_ObjectMeta provisioner)
                  (mkProvisionerSpec
                     (mkConstraints labels (Taints spec) (StartupTaints spec)
                        requirements (KubeletConfiguration_ spec) (Provider spec))
                     (Limits_ (Spec provisioner)))
                  (Status provisioner) in
              schedule_range rest instanceTypes (visited ++ [provisioner])
          end
      end
  end.

(** The loop of [schedule] that injects the volume topology requirements
    into every pod, in place; [injected] are the pods already done. *)
Fixpoint schedule_inject (pods : list Pod) (injected : list Pod)
  : M (result (list Pod)) :=
  match pods with
  | [] => ret (Ok injected)
  | pod :: rest =>
      emit (EvInject pod) >>
      let* r := read (λ w, volumeTopology_Inject w pod) in
      match r with
      | Err e => ret (Err (wrapError "getting volume topology requirements" e))
      | Ok pod => schedule_inject rest (injected ++ [pod])
      end
  end.

(** [func (p *Provisioner) schedule(ctx, pods) ([]*scheduling.Node, error)].
    The deferred [metrics.Measure] observes wall-clock time only and is left
    out, here and in [bind]. *)
Definition schedule (pods : list Pod) : M (result (list SNode)) :=
  emit EvListProvisioners >>
  let* r := read kube_provisioners in
  match r with
  | Err e => ret (Err (wrapError "listing provisioners" e))
  | Ok provisionerList =>
      let* r := schedule_range provisionerList ∅ [] in
      match r with
      | Err e => ret (Err e)
      | Ok (instanceTypes, items) =>
          let provisioners := seq 0 (length items) in
          let deref := λ p : ProvisionerPtr, items !!! p in
          if bool_decide (length provisioners = 0%nat)
          then ret (Err (errorString "no provisioners found"))
          else
            let* r := schedule_inject pods [] in
            match r with
            | Err e => ret (Err e)
            | Ok pods =>
                emit EvNewTopology >>
                let* r := read (λ w, NewTopology w provisioners deref pods) in
                match r with
                | Err e => ret (Err (wrapError "tracking topology counts" e))
                | Ok topology =>
                    let* r := getDaemonOverhead deref provisioners in
                    match r with
                    | Err e => ret (Err (wrapError "getting daemon overhead" e))
                    | Ok daemonOverhead =>
                        emit (EvSolve pods) >>
                        call (λ w, Solve w
                                (mkSchedulerArgs provisioners deref topology
                                   instanceTypes daemonOverhead) pods)
                    end
                end
            end
      end
  end.

(** The tolerations [bind] grants on top of the pod's own. *)
Definition notReadyTolerations : list Toleration :=
  [ mkToleration NotReadyTaintKey TolerationOpEqual "" TaintEffectNoSchedule;
    mkToleration TaintNodeNotReady TolerationOpEqual "" TaintEffectNoSchedule ].

(** [&v1.Binding{TypeMeta: pod.TypeMeta, ObjectMeta: pod.ObjectMeta,
    Target: v1.ObjectReference{Name: node.Name}}] *)
Definition binding_for (node : Node) (pod : Pod) : Binding :=
  mkBinding (pod_TypeMeta pod) (pod_ObjectMeta pod)
    (mkObjectReference (node_Name node)).

(** The work piece of [bind] for one pod. *)
Definition bind_piece (node : Node) (pod : Pod) : M unit :=
  let nodeTaints := ns_Taints (node_Spec node) in
  match Taints_Tolerates nodeTaints pod notReadyTolerations with
  | Some _ => emit (EvPodShouldSchedule pod node)
  | None =>
      emit (EvPodsBind (pod_Namespace pod) (binding_for node pod)) >>
      let* err := call (λ w, Pods_Bind w (pod_Namespace pod) (binding_for node pod)) in
      match err with
      | Some e => emit (EvLog Error "Failed to bind %s/%s to %s, %s" (Some e))
      | None => ret tt
      end
  end.

(** [func (p *Provisioner) bind(ctx, node, pods) (err error)] *)
Definition bind (node : Node) (pods : list Pod) : M (option error) :=
  ParallelizeUntil pods (bind_piece node) >>
  ret None.

(** The [cloudprovider.NodeRequest] built by [launch]: both the taints and
    the startup taints go to the node. *)
Definition launch_request (node : SNode) : NodeRequest :=
  let spec := Constraints_ (Spec (sn_Provisioner node)) in
  let taints := Taints spec ++ StartupTaints spec in
  mkNodeRequest (sn_InstanceTypeOptions node)
    (mkNodeTemplate (Provider spec) (Labels spec) taints (Requirements_ spec)
       (KubeletConfiguration_ spec)).

(** [func (p *Provisioner) launch(ctx, node *scheduling.Node) error] *)
Definition launch (node : SNode) : M (option error) :=
  let key := ObjectKeyFromObject (prov_ObjectMeta (sn_Provisioner node)) in
  emit (EvGetProvisioner key) >>
  let* r := read (λ w, kube_get_provisioner w key) in
  match r with
  | Err e => ret (Some (wrapError "getting current resource usage" e))
  | Ok latest =>
      match Limits_ExceededBy (Limits_ (Spec latest)) (Resources (Status latest)) with
      | Some err => ret (Some err)
      | None =>
          emit (EvCloudCreate (launch_request node)) >>
          let* r := call (λ w, cloud_Create w (launch_request node)) in
          match r with
          | Err e => ret (Some (wrapError "creating cloud provider machine" e))
          | Ok k8sNode =>
              match mergo_Merge k8sNode
                      (ToNode (Constraints_ (Spec (sn_Provisioner node)))) with
              | Err e => ret (Some (wrapError "merging cloud provider node" e))
              | Ok k8sNode =>
                  emit (EvNodesCreate k8sNode) >>
                  let* r := call (λ w, Nodes_Create w k8sNode) in
                  let bindPods : M (option error) :=
                    emit (EvLog Info "Created %s" None) >>
                    let* err := bind k8sNode (sn_Pods node) in
                    match err with
                    | Some e => ret (Some (wrapError "binding pods" e))
                    | None => ret None
                    end in
                  match r with
                  | Err e =>
                      if IsAlreadyExists e
                      then emit (EvLog Debug "node %s already registered" None) >>
                           bindPods
                      else ret (Some (wrapError "creating node %s" e))
                  | Ok _ => bindPods
                  end
              end
          end
      end
  end.

(** The work piece of [provision] for one node of the Solve result. *)
Definition provision_piece (node : SNode) : M unit :=
  let* err := launch node in
  match err with
  | Some e => emit (EvLog Error "Launching node, %s" (Some e))
  | None => ret tt
  end.

(** [func (p *Provisioner) provision(ctx) error]; the deferred
    [p.cond.Broadcast()] runs on every way out. *)
Definition provision : M (option error) :=
  emit (EvLog Info "Waiting for unschedulable pods" None) >>
  emit EvBatcherWait >>
  let* window := call Batcher_Wait in
  let* err :=
    (let* r := getPods in
     match r with
     | Err e => ret (Some e)
     | Ok pods =>
         if bool_decide (length pods = 0%nat) then ret None
         else
           emit (EvLog Info "Batched %d pod(s) in %s" None) >>
           let* r := schedule pods in
           match r with
           | Err e => ret (Some e)
           | Ok nodes =>
               ParallelizeUntil nodes provision_piece >>
               ret None
           end
     end) in
  emit EvCondBroadcast >>
  ret err.

(** The goroutine started by [NewProvisioner]:
    [for running.Err() == nil { if err := p.provision(running); err != nil
    { log } }; log "Stopped provisioner"].  The loop need not end, so it is
    run for at most [fuel] turns; the result tells whether the loop was left. *)
Fixpoint NewProvisioner_loop (fuel : nat) : M bool :=
  match fuel with
  | O => ret false
  | S fuel =>
      let* stop := read ctx_cancelled in
      if stop
      then emit (EvLog Info "Stopped provisioner" None) >> ret true
      else
        let* err := provision in
        (match err with
         | Some e => emit (EvLog Error "Provisioning failed, %s" (Some e))
         | None => ret tt
         end) >>
        NewProvisioner_loop fuel
  end.

(** ** The fan-out, worker by worker

    [workqueue.ParallelizeUntil(ctx, n, n, doWorkPiece)] starts [n] workers
    for its [n] pieces.  A worker takes a piece that no worker has taken yet
    and looks at the context: when it is done the piece is dropped, otherwise
    the worker runs the piece
    ([select { case <-stop: return; default: doWorkPiece(p) }]).  Neither the
    order in which the pieces are picked up nor what the other workers do
    between the look at the context and the run of the piece is fixed by the
    program.

    [fans doWorkPiece waiting running w w' t]: from the world [w], with the
    pieces [waiting] not picked up yet and the pieces [running] picked up
    with a live context and still to run, the workers can come to the end in
    the world [w'] with the trace [t].  A piece that runs is run to its end
    before another piece runs. *)
Inductive fans {A : Type} (doWorkPiece : A → M unit)
  : list A → list A → W → W → list Event → Prop :=
| fans_done w :
    fans doWorkPiece [] [] w w []
| fans_skip pre x post running w w' t :
    ctx_cancelled w = true →
    fans doWorkPiece (pre ++ post) running w w' t →
    fans doWorkPiece (pre ++ x :: post) running w w' t
| fans_pick pre x post running w w' t :
    ctx_cancelled w = false →
    fans doWorkPiece (pre ++ post) (x :: running) w w' t →
    fans doWorkPiece (pre ++ x :: post) running w w' t
| fans_work waiting pre x post w w' t :
    fans doWorkPiece waiting (pre ++ post) (doWorkPiece x w).1.2 w' t →
    fans doWorkPiece waiting (pre ++ x :: post) w w' ((doWorkPiece x w).2 ++ t).

(** The pieces [order] run one after the other, without a look at the
    context. *)
Fixpoint works {A} (doWorkPiece : A → M unit) (order : list A) : M unit :=
  match order with
  | [] => ret tt
  | x :: rest => doWorkPiece x >> works doWorkPiece rest
  end.

(** The worlds in which a worker can look at the context while the pieces
    [order] run from [w]: [w] and the world each piece leaves. *)
Fixpoint pick_up_worlds {A} (doWorkPiece : A → M unit) (order : list A) (w : W)
  : list W :=
  w :: match order with
       | [] => []
       | x :: rest => pick_up_worlds doWorkPiece rest (doWorkPiece x w).1.2
       end.

End Provisioner.

(** * Go's [strings] package, as far as the programs below use it

    A Go string is a sequence of bytes. *)
Module strings.

Definition str (s : string) : list ascii := String.list_ascii_of_string s.

(** [strings.Index(s, sep)]: the index of the first instance of [sep] in
    [s], [None] for -1. *)
Fixpoint Index (s sep : list ascii) : option nat :=
  if bool_decide (take (length sep) s = sep) then Some 0%nat
  else match s with
       | [] => None
       | _ :: s' => S <$> Index s' sep
       end.

(** [strings.Contains(s, substr)] is [Index(s, substr) >= 0]. *)
Definition Contains (s substr : list ascii) : bool :=
  match Index s substr with Some _ => true | None => false end.

(** The loop of [genSplit]: cut at the first instance of [sep], go on
    behind it.  Every turn with a non-empty [sep] consumes a byte, so
    [length s] turns are enough. *)
Fixpoint genSplit (turns : nat) (s sep : list ascii) : list (list ascii) :=
  match turns with
  | O => [s]
  | S turns =>
      match Index s sep with
      | None => [s]
      | Some m => take m s :: genSplit turns (drop (m + length sep) s) sep
      end
  end.

(** [strings.Split(s, sep)] for a non-empty [sep]: the substrings between
    the instances of [sep], found from the left and not overlapping.  With an
    empty [sep] Go splits after each UTF-8 sequence; the programs below have
    no such call, and the case is given here for single-byte sequences. *)
Definition Split (s sep : list ascii) : list (list ascii) :=
  match sep with
  | [] => (λ c, [c]) <$> s
  | _ => genSplit (length s) s sep
  end.

(** [strings.Join(elems, sep)] *)
Fixpoint Join (elems : list (list ascii)) (sep : list ascii) : list ascii :=
  match elems with
  | [] => []
  | [e] => e
  | e :: rest => e ++ sep ++ Join rest sep
  end.

(** The loop of [strings.Replace(s, old, new, -1)] for a non-empty [old]. *)
Fixpoint replace (turns : nat) (s old new : list ascii) : list ascii :=
  match turns with
  | O => s
  | S turns =>
      match Index s old with
      | None => s
      | Some m => take m s ++ new ++ replace turns (drop (m + length old) s) old new
      end
  end.

(** [strings.ReplaceAll(s, old, new)]: every instance of [old], found from
    the left and not overlapping, gives way to [new].  With an empty [old] Go
    puts [new] before each UTF-8 sequence and at the end; the programs below
    have no such call, and the case is given here for single-byte
    sequences. *)
Definition ReplaceAll (s old new : list ascii) : list ascii :=
  match old with
  | [] => new ++ (s ≫= λ c, c :: new)
  | _ => replace (length s) s old new
  end.

End strings.

(** * [hack/docs/configuration_gen_docs.go]: the generator of the
    configuration table *)
Module docs.
Import strings.

(** What the generator reads of a [flag.Flag]. *)
Record Flag := mkFlag {
  Name : list ascii;
  Usage : list ascii;
  DefValue : list ascii
}.

(** [var docsLinks = map[string]string{...}]: one entry. *)
Definition docsLinks : list (list ascii * list ascii) :=
  [(str "https://karpenter.sh/unspecified/aws/provisioning/#pod-eni-security-groups-for-pods",
    str "[Pod ENI documentation](../../aws/provisioning/#pod-eni-security-groups-for-pods)")].

(** [func insertDocsLinks(s string) string] *)
Definition insertDocsLinks (s : list ascii) : list ascii :=
  foldl (λ s kv, ReplaceAll s kv.1 kv.2) s docsLinks.

Definition genStart : list ascii :=
  str "[comment]: <> (the content below is generated from hack/docs/configuration_gen_docs.go)".
Definition genEnd : list ascii :=
  str "[comment]: <> (end docs generated content from hack/docs/configuration_gen_docs.go)".

Definition newline : list ascii := ["010"%char].

Section main.
(** [strings.ToUpper], which maps letters of every alphabet, is taken as
    given. *)
Variable ToUpper : list ascii → list ascii.
(** The flags of [options.New()] in the order [VisitAll] visits them. *)
Variable flags : list Flag.

(** The name of the environment variable of a flag. *)
Definition envName (f : Flag) : list ascii :=
  ReplaceAll (ToUpper (Name f)) (str "-") (str "_").

(** The closure handed to [opts.VisitAll]: the line for one flag. *)
Definition flagLine (f : Flag) : list ascii :=
  let line :=
    match DefValue f with
    | [] =>
        str "| " ++ envName f ++ str " | " ++ (str "\-\-" ++ Name f) ++ str " | " ++
        Usage f ++ str "|" ++ newline
    | _ =>
        str "| " ++ envName f ++ str " | " ++ (str "\-\-" ++ Name f) ++ str " | " ++
        Usage f ++ str " (default = " ++ DefValue f ++ str ")|" ++ newline
    end in
  insertDocsLinks line.

(** [envVarsBlock] once every flag has been visited. *)
Definition envVarsBlock : list ascii :=
  foldl (λ block f, block ++ flagLine f)
    ((str "| Environment Variable | CLI Flag | Description |" ++ newline) ++
     (str "|--|--|--|" ++ newline))
    flags.

(** How [main] ends. *)
Inductive outcome :=
| FatalUsage
| ExitUnreadable
| FatalStart (found : nat)
| FatalEnd (found : nat)
| FatalCreate
| Wrote (file content : list ascii).

(** What [main] makes of the text it has read: the text to write, or the
    fatal error. *)
Definition generate (mdFile : list ascii) : outcome + list ascii :=
  let startDocSections := Split mdFile genStart in
  if negb (length startDocSections =? 2)%nat
  then inl (FatalStart (length startDocSections - 1))
  else
    let endDocSections := Split mdFile genEnd in
    if negb (length endDocSections =? 2)%nat
    then inl (FatalEnd (length endDocSections - 1))
    else
      let topDoc := default [] (startDocSections !! 0%nat) ++ genStart ++ newline ++ newline in
      let bottomDoc := newline ++ genEnd ++ default [] (endDocSections !! 1%nat) in
      inr (topDoc ++ envVarsBlock ++ bottomDoc).

(** [func main()], on the arguments of the process and a file system that
    answers [os.ReadFile] and tells whether [os.Create] succeeds. *)
Definition main (Args : list (list ascii)) (ReadFile : list ascii → option (list ascii))
    (Create : list ascii → bool) : outcome :=
  if negb (length Args =? 2)%nat then FatalUsage
  else
    let outputFileName := default [] (Args !! 1%nat) in
    match ReadFile outputFileName with
    | None => ExitUnreadable
    | Some mdFile =>
        match generate mdFile with
        | inl fatal => fatal
        | inr text => if Create outputFileName then Wrote outputFileName text else FatalCreate
        end
    end.
End main.

End docs.

(** * [pkg/utils/project] *)
Module project.
Import strings.

(** [func GetReleaseVersion() string], for the [Version] the build injected. *)
Definition GetReleaseVersion (Version : list ascii) : list ascii :=
  if Contains Version (str "-") then str "preview" else Version.

End project.

(** ** Notions used to state properties *)

(** The instance type with the quantity of one resource replaced. *)
Definition with_quantity (name : ResourceName) (q : Quantity) (it : InstanceType)
  : InstanceType :=
  mkInstanceType (it_Name it) (<[name := q]> (it_Resources it)) (it_Architecture it).

(** The provisioner with other limits and another recorded usage: a
    snapshot of the same object taken at another time. *)
Definition with_limits_and_usage (limits : option Limits) (usage : gmap string Z)
    (p : Provisioner) : Provisioner :=
  mkProvisionerObj (prov_ObjectMeta p)
    (mkProvisionerSpec (Constraints_ (Spec p)) limits)
    (mkProvisionerStatus usage).

(** The provisioner with other startup taints. *)
Definition with_StartupTaints (startupTaints : list Taint) (p : Provisioner)
  : Provisioner :=
  let c := Constraints_ (Spec p) in
  mkProvisionerObj (prov_ObjectMeta p)
    (mkProvisionerSpec
       (mkConstraints (Labels c) (Taints c) startupTaints (Requirements_ c)
          (KubeletConfiguration_ c) (Provider c))
       (Limits_ (Spec p)))
    (Status p).

(** The keys of the provisioners re-read by the launches in a trace: one
    per launch that was started. *)
Definition launches (t : list Event) : list ObjectKey :=
  omap (λ e, match e with EvGetProvisioner key => Some key | _ => None end) t.

(** The key under which [launch] re-reads the node's provisioner. *)
Definition launch_key (node : SNode) : ObjectKey :=
  ObjectKeyFromObject (prov_ObjectMeta (sn_Provisioner node)).

(** The error line [provision] logs for a launch that returned [err]. *)
Definition launch_log (err : option error) : list Event :=
  match err with
  | Some e => [EvLog Error "Launching node, %s" (Some e)]
  | None => []
  end.

(** The error line the loop logs for a pass that returned [err]. *)
Definition pass_log (err : option error) : list Event :=
  match err with
  | Some e => [EvLog Error "Provisioning failed, %s" (Some e)]
  | None => []
  end.

(** The error line [bind] logs for a binding call that returned [err]. *)
Definition bind_log (err : option error) : list Event :=
  match err with
  | Some e => [EvLog Error "Failed to bind %s/%s to %s, %s" (Some e)]
  | None => []
  end.

(** The debug line [getPods] logs for a pod that fails validation. *)
Definition skip_log (errs : option error) : option Event :=
  EvLog Debug "Unable to batch pod, %s" ∘ Some <$> errs.

(** The decisions of [bind] in a trace: its binding calls and its
    [PodShouldSchedule] events, in order. *)
Definition decisions (t : list Event) : list Event :=
  omap (λ e, match e with
             | EvPodsBind _ _ | EvPodShouldSchedule _ _ => Some e
             | _ => None
             end) t.

(** The requests of the machine creations in a trace. *)
Definition creations (t : list Event) : list NodeRequest :=
  omap (λ e, match e with EvCloudCreate request => Some request | _ => None end) t.

(** The node objects whose registration a trace asks for. *)
Definition registrations (t : list Event) : list Node :=
  omap (λ e, match e with EvNodesCreate node => Some node | _ => None end) t.

(** What [bind] decides for one pod on a node: put it off or bind it. *)
Definition decision `{Helpers} (node : Node) (pod : Pod) : Event :=
  match Taints_Tolerates (ns_Taints (node_Spec node)) pod notReadyTolerations with
  | Some _ => EvPodShouldSchedule pod node
  | None => EvPodsBind (pod_Namespace pod) (binding_for node pod)
  end.

(** [sep] stands in [s] at byte [i]. *)
Definition occurs (sep s : list ascii) (i : nat) : Prop :=
  take (length sep) (drop i s) = sep.

#[global] Instance occurs_dec sep s i : Decision (occurs sep s i) :=
  decide (take (length sep) (drop i s) = sep).

(** * A small cluster to run the controller on

    A concrete world and concrete helpers, on which the functions above
    evaluate.  The store holds pods, provisioners and daemon sets; the
    scheduler answers with a fixed plan; the context is cancelled after a
    given number of calls that change the world. *)
Module Cluster.

Record World := mkWorld {
  cl_pods : list Pod;
  cl_provisioners : list Provisioner;
  cl_daemonsets : list DaemonSet;
  (** names of the node objects registered so far *)
  cl_nodes : list string;
  (** pod name and node name of the bindings made so far *)
  cl_bound : list (string * string);
  (** the nodes the scheduler will answer with *)
  cl_plan : list SNode;
  (** whether List calls are answered *)
  cl_store_up : bool;
  (** the context is cancelled once this many further world-changing calls
      have returned; [None]: never *)
  cl_cancel_in : option nat
}.

Definition tick (c : World) : World :=
  mkWorld (cl_pods c) (cl_provisioners c) (cl_daemonsets c) (cl_nodes c)
    (cl_bound c) (cl_plan c) (cl_store_up c) (pred <$> cl_cancel_in c).

Definition register (name : string) (c : World) : World :=
  mkWorld (cl_pods c) (cl_provisioners c) (cl_daemonsets c)
    (cl_nodes c ++ [name]) (cl_bound c) (cl_plan c) (cl_store_up c)
    (cl_cancel_in c).

Definition record_binding (pod node : string) (c : World) : World :=
  mkWorld (cl_pods c) (cl_provisioners c) (cl_daemonsets c) (cl_nodes c)
    (cl_bound c ++ [(pod, node)]) (cl_plan c) (cl_store_up c)
    (cl_cancel_in c).

Definition unavailable : error := StatusError StatusReasonUnknown "store unavailable".

Definition list_of {A} (c : World) (items : list A) : result (list A) :=
  if cl_store_up c then Ok items else Err unavailable.

Definition get_provisioner (c : World) (key : ObjectKey) : result Provisioner :=
  match List.find (λ p, String.eqb (prov_Name p) (key_Name key)) (cl_provisioners c) with
  | Some p => Ok p
  | None => Err (StatusError StatusReasonNotFound "provisioner not found")
  end.

Definition validate_claims (c : World) (pod : Pod) : option error :=
  if bool_decide ("lost-claim" ∈ ps_Volumes (pod_Spec pod))
  then Some (StatusError StatusReasonNotFound "persistentvolumeclaim not found")
  else None.

Definition cancelled (c : World) : bool :=
  bool_decide (cl_cancel_in c = Some 0%nat).

(** what a client answers when it is called with a cancelled context *)
Definition canceled : error := errorString "context canceled".

Definition create_machine (c : World) (req : NodeRequest) : result Node * World :=
  if cancelled c then (Err canceled, c) else
  match InstanceTypeOptions req with
  | [] => (Err (errorString "no instance type options"), tick c)
  | it :: _ =>
      (Ok (mkNode (mkObjectMeta "" ("node-" +:+ it_Name it) (nt_Labels (Template req)))
             (mkNodeSpec [] ("aws:///" +:+ it_Name it))),
       tick c)
  end.

Definition create_node (c : World) (n : Node) : result Node * World :=
  if cancelled c then (Err canceled, c)
  else if bool_decide (node_Name n ∈ cl_nodes c)
  then (Err (StatusError StatusReasonAlreadyExists "node already exists"), tick c)
  else if bool_decide (node_Name n = "")
  then (Err (StatusError StatusReasonUnknown "node name required"), tick c)
  else (Ok n, tick (register (node_Name n) c)).

Definition bind_pod (c : World) (namespace : string) (b : Binding)
  : option error * World :=
  let pod := om_Name (b_ObjectMeta b) in
  if cancelled c then (Some canceled, c)
  else if bool_decide (pod ∈ (cl_bound c).*1)
  then (Some (StatusError StatusReasonConflict "pod is already assigned"), tick c)
  else (None, tick (record_binding pod (or_Name (b_Target b)) c)).

#[export] Instance env : Environment World := {|
  Topology := unit;
  ctx_cancelled := cancelled;
  Batcher_Wait c := ("1s", tick c);
  kube_pods c := list_of c (cl_pods c);
  kube_provisioners c := list_of c (cl_provisioners c);
  kube_daemonsets c := list_of c (cl_daemonsets c);
  kube_get_provisioner := get_provisioner;
  validatePersistentVolumeClaims := validate_claims;
  volumeTopology_Inject c pod := Ok pod;
  cloud_GetRequirements c provider := Ok (mkRequirements []);
  cloud_GetInstanceTypes c provider :=
    Ok [mkInstanceType "m5.large" {["cpu" := 2]} "amd64"];
  NewTopology c provisioners deref pods := Ok tt;
  Solve c args pods := (Ok (cl_plan c), tick c);
  cloud_Create := create_machine;
  Nodes_Create := create_node;
  Pods_Bind := bind_pod
|}.

(** [Toleration.ToleratesTaint] of the Kubernetes API. *)
Definition ToleratesTaint (t : Toleration) (taint : Taint) : bool :=
  if negb (String.eqb (tol_Effect t) "") &&
     negb (String.eqb (tol_Effect t) (taint_Effect taint)) then false
  else if negb (String.eqb (tol_Key t) "") &&
          negb (String.eqb (tol_Key t) (taint_Key taint)) then false
  else if String.eqb (tol_Operator t) "" || String.eqb (tol_Operator t) "Equal"
  then String.eqb (tol_Value t) (taint_Value taint)
  else String.eqb (tol_Operator t) "Exists".

Definition tolerates (taints : list Taint) (pod : Pod) (additional : list Toleration)
  : option error :=
  match List.filter
          (λ taint, negb (existsb (λ t, ToleratesTaint t taint)
                            (ps_Tolerations (pod_Spec pod) ++ additional)))
          taints with
  | [] => None
  | taint :: _ => Some (errorString ("did not tolerate " +:+ taint_Key taint))
  end.

Definition exceeded_by (limits : option Limits) (usage : gmap string Z)
  : option error :=
  match limits with
  | None => None
  | Some l =>
      match List.filter
              (λ '(name, used),
                 match Limits_Resources l !! name with
                 | Some limit => limit <=? used
                 | None => false
                 end)
              (map_to_list usage) with
      | [] => None
      | (name, _) :: _ => Some (errorString (name +:+ " resource usage exceeds limit"))
      end
  end.

Definition selector_requirements (labels : gmap string string) : Requirements :=
  mkRequirements ((λ '(k, v), mkNSR k "In" [v]) <$> map_to_list labels).

Definition conflicts (a b : NodeSelectorRequirement) : bool :=
  String.eqb (nsr_Key a) (nsr_Key b) &&
  negb (existsb (λ v, existsb (String.eqb v) (nsr_Values b)) (nsr_Values a)).

Definition compatible (r other : Requirements) : option error :=
  match List.filter (λ o, existsb (λ a, conflicts a o) (Requirements_list r))
          (Requirements_list other) with
  | [] => None
  | o :: _ => Some (errorString ("incompatible requirement " +:+ nsr_Key o))
  end.

Definition add_requests (pod : Pod) (acc : gmap string Z) : gmap string Z :=
  foldr (λ c acc, union_with (λ a b, Some (a + b)) (c_Requests c) acc) acc
    (ps_Containers (pod_Spec pod)).

Definition to_node (spec : Constraints) : Node :=
  mkNode (mkObjectMeta "" "" (Labels spec))
    (mkNodeSpec (Taints spec ++ [mkTaint NotReadyTaintKey "" TaintEffectNoSchedule]) "").

(** Fields of [dst] that are empty are filled from [src]. *)
Definition merge (dst src : Node) : result Node :=
  Ok (mkNode
        (mkObjectMeta (om_Namespace (node_ObjectMeta dst))
           (if String.eqb (node_Name dst) "" then node_Name src else node_Name dst)
           (om_Labels (node_ObjectMeta dst) ∪ om_Labels (node_ObjectMeta src)))
        (mkNodeSpec
           (match ns_Taints (node_Spec dst) with
            | [] => ns_Taints (node_Spec src)
            | ts => ts
            end)
           (ns_ProviderID (node_Spec dst)))).

#[export] Instance helpers : Helpers := {|
  validate pod :=
    if String.eqb (pod_Name pod) "" then Some (errorString "pod has no name") else None;
  isProvisionable pod :=
    negb (bool_decide (om_Labels (pod_ObjectMeta pod) !! "owner" = Some "DaemonSet"));
  Taints_Tolerates := tolerates;
  Limits_ExceededBy := exceeded_by;
  Requirements_Compatible := compatible;
  NewPodRequirements pod := selector_requirements (ps_NodeSelector (pod_Spec pod));
  NewRequirements := mkRequirements;
  Requirements_Add r more := mkRequirements (Requirements_list r ++ more);
  NewLabelRequirements := selector_requirements;
  cloudprovider_Requirements types :=
    mkRequirements [mkNSR "node.kubernetes.io/instance-type" "In" (it_Name <$> types)];
  UnionStringMaps maps := foldl (λ acc m, m ∪ acc) ∅ maps;
  RequestsForPods pods := foldr add_requests ∅ pods;
  ToNode := to_node;
  mergo_Merge := merge
|}.

(** ** Objects *)

Definition meta (name : string) : ObjectMeta := mkObjectMeta "default" name ∅.

Definition pod (name : string) (tolerations : list Toleration)
    (requests : gmap string Z) : Pod :=
  mkPod (mkTypeMeta "Pod" "v1") (meta name)
    (mkPodSpec "" tolerations ∅ [mkContainer "main" requests] []).

Definition web : Pod := pod "web" [] {["cpu" := 4]}.
Definition api : Pod := pod "api" [] {["cpu" := 1]}.
Definition batch : Pod :=
  pod "batch" [mkToleration "dedicated" "Exists" "" ""] {["cpu" := 2]}.
(** a pod that fails [validate] *)
Definition nameless : Pod := pod "" [] ∅.
(** a pod whose volume claim cannot be found *)
Definition orphan : Pod :=
  mkPod (mkTypeMeta "Pod" "v1") (meta "orphan")
    (mkPodSpec "" [] ∅ [mkContainer "main" ∅] ["lost-claim"]).
(** a pod that already runs on a node *)
Definition running : Pod :=
  mkPod (mkTypeMeta "Pod" "v1") (meta "running")
    (mkPodSpec "node-a" [] ∅ [mkContainer "main" ∅] []).
(** a pod owned by a daemon set *)
Definition agent : Pod :=
  mkPod (mkTypeMeta "Pod" "v1") (mkObjectMeta "default" "agent" {["owner" := "DaemonSet"]})
    (mkPodSpec "" [] ∅ [mkContainer "main" ∅] []).

Definition dedicated : Taint := mkTaint "dedicated" "gpu" "NoSchedule".
Definition warming : Taint := mkTaint "warming" "" "NoSchedule".

Definition provisioner (name : string) (taints startupTaints : list Taint)
    (limits : option Limits) (usage : gmap string Z) : Provisioner :=
  mkProvisionerObj (mkObjectMeta "" name ∅)
    (mkProvisionerSpec
       (mkConstraints ∅ taints startupTaints (mkRequirements []) None None) limits)
    (mkProvisionerStatus usage).

Definition m5 : InstanceType := mkInstanceType "m5.large" {["cpu" := 2]} "amd64".
Definition p3 : InstanceType :=
  mkInstanceType "p3.2xlarge" {["cpu" := 8; "nvidia.com/gpu" := 1]} "amd64".

Definition daemon (name : string) (tolerations : list Toleration) (cpu : Z) : DaemonSet :=
  mkDaemonSet (meta name)
    (mkPodSpec "" tolerations ∅ [mkContainer name {["cpu" := cpu]}] []).

(** ** Provisioners, planned nodes and worlds *)

(** cpu limit 10, recorded usage 8 *)
Definition roomy : Provisioner :=
  provisioner "default" [] [] (Some (mkLimits {["cpu" := 10]})) {["cpu" := 8]}.
(** the same provisioner once its usage has reached 12 *)
Definition full : Provisioner :=
  provisioner "default" [] [] (Some (mkLimits {["cpu" := 10]})) {["cpu" := 12]}.
(** a tainted provisioner with a startup taint and no limits *)
Definition gpu : Provisioner := provisioner "gpu" [dedicated] [warming] None ∅.

(** planned from the [roomy] snapshot *)
Definition general_node : SNode := mkSNode roomy [m5] [web].
Definition gpu_node : SNode := mkSNode gpu [p3] [api; batch].

(** the node object [launch] registers for [gpu_node] *)
Definition gpu_machine : Node :=
  mkNode (mkObjectMeta "" "node-p3.2xlarge" ∅)
    (mkNodeSpec [dedicated; mkTaint NotReadyTaintKey "" TaintEffectNoSchedule]
       "aws:///p3.2xlarge").

Definition world (provisioners : list Provisioner) (plan : list SNode)
    (cancel_in : option nat) : World :=
  mkWorld [web; api; batch; nameless; orphan; running; agent] provisioners
    [daemon "logs" [] 1; daemon "driver" [mkToleration "dedicated" "Exists" "" ""] 3]
    [] [] plan true cancel_in.

(** a live cluster with room left *)
Definition calm : World := world [roomy; gpu] [general_node; gpu_node] None.
(** the store has seen the usage pass the limit since the nodes were planned *)
Definition crowded : World := world [full; gpu] [general_node; gpu_node] None.
(** the general machine has registered itself already *)
Definition raced : World :=
  register "node-m5.large" (world [roomy; gpu] [general_node] None).
(** the context is cancelled as the [calls]th world-changing call from now
    returns; a pass waits, solves, then creates and registers a machine and
    binds its pods, node after node *)
Definition stopping (calls : nat) : World :=
  world [roomy; gpu] [general_node; gpu_node] (Some calls).
(** no provisioner is configured *)
Definition unconfigured : World := world [] [] None.
(** the store does not answer and the context is cancelled during the
    second wait *)
Definition down : World :=
  mkWorld [] [] [] [] [] [] false (Some 2%nat).
(** "batch" was bound by someone else meanwhile *)
Definition contended : World :=
  record_binding "batch" "node-old" (world [gpu] [gpu_node] None).

(** the provisioners of [calm] behind pointers *)
Definition deref (p : ProvisionerPtr) : Provisioner := [roomy; gpu] !!! p.

(** Whether an event is a binding call or a [PodShouldSchedule] event. *)
Definition is_bind_event (e : Event) : bool :=
  match e with
  | EvPodsBind _ _ | EvPodShouldSchedule _ _ => true
  | _ => false
  end.

End Cluster.

(** * The small cluster with incidents

    The store of the small cluster with a cloud provider that has no
    requirements for the payload "unknown" and no instance types for the
    payload "retired". *)
Module Incidents.

Definition outage : error := errorString "catalogue unavailable".

Definition requirements (c : Cluster.World) (provider : option string)
  : result Requirements :=
  if bool_decide (provider = Some "unknown") then Err outage
  else Ok (mkRequirements []).

Definition catalogue (c : Cluster.World) (provider : option string)
  : result (list InstanceType) :=
  if bool_decide (provider = Some "retired") then Err outage
  else Ok [Cluster.m5].

Definition env : Environment Cluster.World := {|
  Topology := unit;
  ctx_cancelled := Cluster.cancelled;
  Batcher_Wait c := ("1s", Cluster.tick c);
  kube_pods c := Cluster.list_of c (Cluster.cl_pods c);
  kube_provisioners c := Cluster.list_of c (Cluster.cl_provisioners c);
  kube_daemonsets c := Cluster.list_of c (Cluster.cl_daemonsets c);
  kube_get_provisioner := Cluster.get_provisioner;
  validatePersistentVolumeClaims := Cluster.validate_claims;
  volumeTopology_Inject c pod := Ok pod;
  cloud_GetRequirements := requirements;
  cloud_GetInstanceTypes := catalogue;
  NewTopology c provisioners deref pods := Ok tt;
  Solve c args pods := (Ok (Cluster.cl_plan c), Cluster.tick c);
  cloud_Create := Cluster.create_machine;
  Nodes_Create := Cluster.create_node;
  Pods_Bind := Cluster.bind_pod
|}.

Definition with_payload (name payload : string) : Provisioner :=
  mkProvisionerObj (mkObjectMeta "" name ∅)
    (mkProvisionerSpec
       (mkConstraints ∅ [] [] (mkRequirements []) None (Some payload)) None)
    (mkProvisionerStatus ∅).

Definition retired : Provisioner := with_payload "old" "retired".
Definition unknown : Provisioner := with_payload "new" "unknown".

(** the second provisioner has no instance types *)
Definition stale : Cluster.World :=
  Cluster.world [Cluster.roomy; retired; Cluster.gpu] [] None.
(** the second provisioner has no requirements *)
Definition early : Cluster.World :=
  Cluster.world [Cluster.roomy; unknown; Cluster.gpu] [] None.
(** every pod of the store runs already or belongs to a daemon set *)
Definition idle : Cluster.World :=
  Cluster.mkWorld [Cluster.running; Cluster.agent] [Cluster.roomy] [] [] [] []
    true None.

End Incidents.

(** * A page and flags to run the generator on *)
Module Sample.
Import strings docs.

(** upper case for the letters a to z, every other byte as it is *)
Definition upper_byte (c : ascii) : ascii :=
  let n := nat_of_ascii c in
  if (97 <=? n)%nat && (n <=? 122)%nat then ascii_of_nat (n - 32) else c.
Definition upper (s : list ascii) : list ascii := upper_byte <$> s.

Definition flags : list Flag :=
  [ mkFlag (str "aws-eni-limited-pod-density")
      (str "see https://karpenter.sh/unspecified/aws/provisioning/#pod-eni-security-groups-for-pods")
      (str "true");
    mkFlag (str "cluster-name") (str "The kubernetes cluster name") [] ].

(** a page with a stale table between the markers *)
Definition page : list ascii :=
  str "# Configuration" ++ newline ++ genStart ++ newline ++ str "| stale |" ++
  newline ++ genEnd ++ newline ++ str "## Notes" ++ newline.

(** a page whose end marker comes first *)
Definition swapped : list ascii :=
  str "top" ++ genEnd ++ str "middle" ++ genStart ++ str "bottom".

(** the file system: one file *)
Definition files (name : list ascii) : option (list ascii) :=
  if bool_decide (name = str "configuration.md") then Some page else None.
End Sample.

(** * Properties *)

(** ** The AL2 container runtime *)

(** C10. For a non-empty list of instance types the container runtime of the
    AL2 user data is decided by the first element alone: it is "containerd"
    exactly when that instance type has no NVIDIA GPU, no AMD GPU and no AWS
    Neuron resource, and "dockerd" otherwise; the other elements are not
    looked at, and [UserData] carries that runtime. *)
Theorem containerRuntime_first_instance_type
    (nvidia amd neuron : ResourceName) (a : amifamily.AL2)
    (first : InstanceType) (rest : list InstanceType) :
  let runtime := amifamily.containerRuntime nvidia amd neuron a (first :: rest) in
  let acceleratorFree :=
    rl_index (it_Resources first) nvidia = 0 ∧
    rl_index (it_Resources first) amd = 0 ∧
    rl_index (it_Resources first) neuron = 0 in
  (runtime = Some "containerd" ↔ acceleratorFree) ∧
  (runtime = Some "dockerd" ↔ ¬ acceleratorFree) ∧
  (∀ others,
     amifamily.containerRuntime nvidia amd neuron a (first :: others) = runtime) ∧
  (∀ kubeletConfig taints labels caBundle,
     bootstrap.ContainerRuntime <$>
       amifamily.UserData nvidia amd neuron a kubeletConfig taints labels
         caBundle (first :: rest)
     = amifamily.al2_Options a ≫= λ _, runtime).
Proof.
  intros runtime acceleratorFree.
  assert (Hrt : runtime = Some "containerd" ∧ acceleratorFree ∨
                runtime = Some "dockerd" ∧ ¬ acceleratorFree).
  { subst runtime acceleratorFree.
    unfold amifamily.containerRuntime, resources.IsZero.
    cbn [lookup list_lookup].
    destruct (Z.eqb_spec (rl_index (it_Resources first) nvidia) 0);
      destruct (Z.eqb_spec (rl_index (it_Resources first) amd) 0);
      destruct (Z.eqb_spec (rl_index (it_Resources first) neuron) 0);
      cbn [andb]; first [by left | right; split; [done | by intros (?&?&?)]]. }
  split_and!.
  - destruct Hrt as [[? ?]|[Hd ?]]; [done|]. rewrite Hd. by split.
  - destruct Hrt as [[Hc ?]|[? ?]]; [|done]. rewrite Hc. by split.
  - done.
  - intros. unfold amifamily.UserData. fold runtime.
    destruct Hrt as [[-> _]|[-> _]]; by destruct (amifamily.al2_Options a).
Qed.

Section Verification.
Context {W : Type} `{Env : Environment W} `{Hlp : Helpers}.

(** ** Running computations *)

Lemma bnd_run {A B} (m : M A) (f : A → M B) (w : W) :
  bnd m f w =
    (let r := m w in let r' := f r.1.1 r.1.2 in (r'.1.1, r'.1.2, r.2 ++ r'.2)).
Proof.
  unfold bnd. destruct (m w) as [[a w1] t1]. cbn.
  by destruct (f a w1) as [[b w2] t2].
Qed.

Ltac run :=
  repeat first
    [ rewrite bnd_run
    | progress unfold ret, emit, read, call
    | progress cbn [fst snd app] ].

(** Brings a trace into right-nested form. *)
Ltac flat :=
  repeat first
    [ rewrite <- app_assoc | rewrite <- app_comm_cons | rewrite app_nil_r
    | rewrite app_nil_l ].

(** Closes [e ∈ [e1; ...; en] → _] when [e] differs from every [ei] by its
    constructor or a literal. *)
Ltac absent :=
  let H := fresh "Habs" in
  rewrite ?elem_of_cons, ?elem_of_nil; intros H;
  repeat (destruct H as [H|H]; [discriminate H|]); destruct H.

(** ** The worker fan-out *)

Lemma ParallelizeUntil_cons_live {A} (x : A) rest (f : A → M unit) w :
  ctx_cancelled w = false →
  ParallelizeUntil (x :: rest) f w =
    (tt, (ParallelizeUntil rest f (f x w).1.2).1.2,
     (f x w).2 ++ (ParallelizeUntil rest f (f x w).1.2).2).
Proof.
  intros Hlive. cbn [ParallelizeUntil]. run. rewrite Hlive. run.
  by destruct (ParallelizeUntil rest f (f x w).1.2) as [[[] ?] ?].
Qed.

Lemma ParallelizeUntil_cancelled {A} (work : list A) (f : A → M unit) w :
  ctx_cancelled w = true → ParallelizeUntil work f w = (tt, w, []).
Proof.
  intros Hstop. induction work as [|x rest IH]; [done|].
  cbn [ParallelizeUntil]. run. rewrite Hstop. run. by rewrite IH.
Qed.

Lemma works_cons {A} (f : A → M unit) x rest (w : W) :
  works f (x :: rest) w =
    (tt, (works f rest (f x w).1.2).1.2, (f x w).2 ++ (works f rest (f x w).1.2).2).
Proof.
  cbn [works]. run. by destruct (works f rest (f x w).1.2) as [[[] ?] ?].
Qed.

Lemma pick_up_worlds_head {A} (f : A → M unit) order (w : W) (P : W → Prop) :
  Forall P (pick_up_worlds f order w) → P w.
Proof. destruct order; cbn [pick_up_worlds]; by intros [? _]%Forall_cons_1. Qed.

Lemma pick_up_worlds_tail {A} (f : A → M unit) x rest (w : W) (P : W → Prop) :
  Forall P (pick_up_worlds f (x :: rest) w) →
  Forall P (pick_up_worlds f rest (f x w).1.2).
Proof. cbn [pick_up_worlds]. by intros [_ ?]%Forall_cons_1. Qed.

(** Whatever the workers do, the pieces that get to run do so one after the
    other in some order; they are the pieces picked up already and some of
    the waiting ones: all of these when the context is live whenever a
    worker looks at it, none of these when it is cancelled whenever a worker
    looks at it. *)
Lemma fans_works {A} (f : A → M unit) waiting running (w w' : W) t :
  fans f waiting running w w' t →
  ∃ order,
    works f order w = (tt, w', t) ∧
    running ⊆+ order ∧ order ⊆+ running ++ waiting ∧
    (Forall (λ w, ctx_cancelled w = false) (pick_up_worlds f order w) →
     order ≡ₚ running ++ waiting) ∧
    (Forall (λ w, ctx_cancelled w = true) (pick_up_worlds f order w) →
     order ≡ₚ running) ∧
    (running = [] → ctx_cancelled w = true → order = []).
Proof.
  induction 1 as [w|pre x post running w w' t Hstop _ IH
                   |pre x post running w w' t Hlive _ IH
                   |waiting pre x post w w' t _ IH].
  - exists []. split_and!; try done.
  - destruct IH as (order & Hrun & Hsub & Hsup & _ & Hnone & Hempty).
    exists order. split_and!; try done.
    + etrans; [exact Hsup|]. apply submseteq_skips_l, submseteq_skips_l.
      by apply submseteq_cons.
    + intros Hall%pick_up_worlds_head. congruence.
  - destruct IH as (order & Hrun & Hsub & Hsup & Hall & _ & _).
    exists order. split_and!; try done.
    + etrans; [|exact Hsub]. by apply submseteq_cons.
    + rewrite Hsup. cbn [app]. by rewrite <- !Permutation_middle.
    + intros Hlives. rewrite (Hall Hlives). cbn [app].
      by rewrite <- !Permutation_middle.
    + intros Hstops%pick_up_worlds_head. congruence.
    + intros _ ?. congruence.
  - destruct IH as (order & Hrun & Hsub & Hsup & Hall & Hnone & _).
    exists (x :: order). split_and!.
    + rewrite works_cons, Hrun. done.
    + rewrite <- Permutation_middle. by apply submseteq_skip.
    + rewrite <- app_assoc. cbn [app]. rewrite <- !Permutation_middle.
      apply submseteq_skip. by rewrite app_assoc.
    + intros Hlives%pick_up_worlds_tail. rewrite (Hall Hlives).
      rewrite <- !app_assoc. cbn [app]. by rewrite <- !Permutation_middle.
    + intros Hstops%pick_up_worlds_tail. rewrite (Hnone Hstops).
      by rewrite <- !Permutation_middle.
    + intros Hnil. by destruct pre.
Qed.

Lemma ParallelizeUntil_cons_cancelled {A} (x : A) rest (f : A → M unit) (w : W) :
  ctx_cancelled w = true →
  ParallelizeUntil (x :: rest) f w = ParallelizeUntil rest f w.
Proof. intros Hstop. by rewrite !ParallelizeUntil_cancelled. Qed.

(** The pieces taken one after the other in index order: one of the ways
    the workers can go. *)
Lemma ParallelizeUntil_fans {A} (work : list A) (f : A → M unit) (w : W) :
  fans f work [] w (ParallelizeUntil work f w).1.2 (ParallelizeUntil work f w).2.
Proof.
  revert w. induction work as [|x rest IH]; intros w; [constructor|].
  destruct (ctx_cancelled w) eqn:Hctx.
  - rewrite ParallelizeUntil_cons_cancelled by done.
    by apply (fans_skip f [] x rest).
  - rewrite ParallelizeUntil_cons_live by done. cbn [fst snd].
    apply (fans_pick f [] x rest); [done|].
    by apply (fans_work f rest [] x []).
Qed.


(** ** Binding pods *)

Lemma bind_piece_run (node : Node) (pod : Pod) (w : W) :
  bind_piece node pod w =
    match Taints_Tolerates (ns_Taints (node_Spec node)) pod notReadyTolerations with
    | Some _ => (tt, w, [EvPodShouldSchedule pod node])
    | None =>
        let r := Pods_Bind w (pod_Namespace pod) (binding_for node pod) in
        (tt, r.2,
         EvPodsBind (pod_Namespace pod) (binding_for node pod) :: bind_log r.1)
    end.
Proof.
  unfold bind_piece.
  destruct (Taints_Tolerates _ pod _); [done|]. run.
  destruct (Pods_Bind w _ _) as [[e|] w']; by run.
Qed.

Lemma bind_run (node : Node) (pods : list Pod) (w : W) :
  bind node pods w =
    (None, (ParallelizeUntil pods (bind_piece node) w).1.2,
     (ParallelizeUntil pods (bind_piece node) w).2).
Proof. unfold bind. run. by rewrite app_nil_r. Qed.

(** Every binding call of a fan-out is the one of a tolerated pod. *)
Lemma ParallelizeUntil_bind_calls (node : Node) (pods : list Pod) (w : W) ns b :
  EvPodsBind ns b ∈ (ParallelizeUntil pods (bind_piece node) w).2 →
  ∃ pod, pod ∈ pods ∧
    Taints_Tolerates (ns_Taints (node_Spec node)) pod notReadyTolerations = None ∧
    ns = pod_Namespace pod ∧ b = binding_for node pod.
Proof.
  revert w. induction pods as [|pod pods IH]; intros w.
  - cbn. by intros ?%elem_of_nil.
  - destruct (ctx_cancelled w) eqn:Hstop.
    + rewrite ParallelizeUntil_cancelled by done. by intros ?%elem_of_nil.
    + rewrite ParallelizeUntil_cons_live by done. cbn [snd].
      rewrite elem_of_app. intros [Hin|Hin].
      * exists pod. split; [left|]. revert Hin. rewrite bind_piece_run.
        destruct (Taints_Tolerates _ pod _).
        { cbn. rewrite list_elem_of_singleton. discriminate. }
        cbn. rewrite elem_of_cons. intros [[= -> ->]|Hin]; [done|].
        exfalso. destruct (Pods_Bind w _ _).1; cbn in Hin.
        -- apply list_elem_of_singleton in Hin. discriminate.
        -- by apply elem_of_nil in Hin.
      * destruct (IH _ Hin) as (p & ? & ?). exists p. split; [by right|done].
Qed.

(** C9. [bind] always returns nil, whatever the binding calls answer; so a
    launch that got as far as binding (it logs "Created" right before)
    returns nil as well. *)
Theorem bind_always_returns_nil :
  (∀ (node : Node) (pods : list Pod) (w : W), (bind node pods w).1.1 = None) ∧
  (∀ (node : SNode) (w : W),
     EvLog Info "Created %s" None ∈ (launch node w).2 →
     (launch node w).1.1 = None).
Proof.
  split.
  - intros. by rewrite bind_run.
  - intros node w. unfold launch. run.
    destruct (kube_get_provisioner w _) as [latest|e]; run.
    2: { absent. }
    destruct (Limits_ExceededBy _ _); run.
    { absent. }
    destruct (cloud_Create w _) as [[k8sNode|e] w1]; run.
    2: { absent. }
    destruct (mergo_Merge k8sNode _) as [merged|e]; run.
    2: { absent. }
    destruct (Nodes_Create w1 merged) as [[?|e] w2]; run.
    + by rewrite bind_run.
    + destruct (IsAlreadyExists e); run.
      * by rewrite bind_run.
      * absent.
Qed.

(** ** Launching a node *)

(** C1. When the Provisioner read from the store at launch time has its
    limits exceeded by its recorded usage, [launch] returns right after that
    read: no machine is created, no node registered, no pod bound.  The
    caller only logs the returned limit error, and the pods stay pending.  The
    limits and usage carried by the node's own copy of the Provisioner play
    no part in any launch. *)
Theorem launch_stops_at_exceeded_limits (node : SNode) (w : W)
    (latest : Provisioner) (err : error) :
  let key := ObjectKeyFromObject (prov_ObjectMeta (sn_Provisioner node)) in
  kube_get_provisioner w key = Ok latest →
  Limits_ExceededBy (Limits_ (Spec latest)) (Resources (Status latest)) = Some err →
  launch node w = (Some err, w, [EvGetProvisioner key]) ∧
  provision_piece node w =
    (tt, w, [EvGetProvisioner key; EvLog Error "Launching node, %s" (Some err)]) ∧
  (∀ limits usage w',
     launch (mkSNode (with_limits_and_usage limits usage (sn_Provisioner node))
               (sn_InstanceTypeOptions node) (sn_Pods node)) w' =
     launch node w').
Proof.
  intros key Hget Hlimits.
  assert (Hlaunch : launch node w = (Some err, w, [EvGetProvisioner key])).
  { unfold launch. fold key. run. rewrite Hget, Hlimits. by run. }
  split_and!; [done| |done].
  unfold provision_piece. run. rewrite Hlaunch. by run.
Qed.

(** C2. After the machine has been created (and the provisioner's node
    template merged into it), a registration of the node object that fails
    with AlreadyExists is passed over: [launch] goes on to [bind] the node's
    pods and returns what the binding returns, nil.  A registration that
    fails with any other error ends the launch with that error, before any
    binding. *)
Theorem launch_registers_idempotently (node : SNode) (w w1 w2 : W)
    (latest : Provisioner) (k8sNode merged : Node) (e : error) :
  let key := ObjectKeyFromObject (prov_ObjectMeta (sn_Provisioner node)) in
  kube_get_provisioner w key = Ok latest →
  Limits_ExceededBy (Limits_ (Spec latest)) (Resources (Status latest)) = None →
  cloud_Create w (launch_request node) = (Ok k8sNode, w1) →
  mergo_Merge k8sNode (ToNode (Constraints_ (Spec (sn_Provisioner node)))) = Ok merged →
  Nodes_Create w1 merged = (Err e, w2) →
  launch node w =
    if IsAlreadyExists e
    then (None, (bind merged (sn_Pods node) w2).1.2,
          [EvGetProvisioner key; EvCloudCreate (launch_request node);
           EvNodesCreate merged; EvLog Debug "node %s already registered" None;
           EvLog Info "Created %s" None] ++
          (bind merged (sn_Pods node) w2).2)
    else (Some (wrapError "creating node %s" e), w2,
          [EvGetProvisioner key; EvCloudCreate (launch_request node);
           EvNodesCreate merged]).
Proof.
  intros key Hget Hlimits Hcreate Hmerge Hregister.
  unfold launch. fold key. run. rewrite Hget, Hlimits. run.
  rewrite Hcreate. run. rewrite Hmerge. run. rewrite Hregister. run.
  destruct (IsAlreadyExists e); run; [|done].
  rewrite bind_run. cbn [fst snd]. by rewrite app_nil_r.
Qed.

(** ** Collecting the pods of a pass *)

Lemma multierr_Combine_pair (a b : option error) :
  multierr_Combine [a; b] = None ↔ a = None ∧ b = None.
Proof. destruct a, b; cbn; split; try done; by intros [? ?]. Qed.

Lemma getPods_range_run (items pods : list Pod) (w : W) :
  getPods_range items pods w =
    (pods ++
     filter (λ p, validate p = None ∧ validatePersistentVolumeClaims w p = None ∧
                  isProvisionable p = true) items,
     w,
     omap (λ p, skip_log (multierr_Combine
                            [validate p; validatePersistentVolumeClaims w p]))
       items).
Proof.
  revert pods. induction items as [|pod items IH]; intros pods.
  - cbn. by rewrite app_nil_r.
  - cbn [getPods_range omap list_omap]. run.
    destruct (multierr_Combine _) as [errs|] eqn:Hv; run.
    + rewrite IH, filter_cons_False; [done|].
      intros (? & ? & _). apply (f_equal is_Some) in Hv. revert Hv.
      rewrite (proj2 (multierr_Combine_pair _ _)) by done.
      intros Hv. by apply (is_Some_None (A:=error)); rewrite Hv.
    + apply multierr_Combine_pair in Hv as [Hv1 Hv2].
      destruct (isProvisionable pod) eqn:Hp; rewrite IH.
      * rewrite filter_cons_True by done. by rewrite <- app_assoc.
      * rewrite filter_cons_False; [done|]. intros (_ & _ & ?). congruence.
Qed.

(** C8. When the store answers the listing, the pods [getPods] returns are
    exactly the pods of the store that are unassigned (empty
    [spec.nodeName]), pass [validate] and the volume claim validation, and
    are provisionable, in the order of the listing.  A pod that fails a
    validation costs one debug line and nothing else: [getPods] still
    succeeds. *)
Theorem getPods_keeps_exactly_the_schedulable (w : W) (items : list Pod) :
  kube_pods w = Ok items →
  getPods w =
    (Ok (filter (λ p, ps_NodeName (pod_Spec p) = "" ∧ validate p = None ∧
                      validatePersistentVolumeClaims w p = None ∧
                      isProvisionable p = true) items),
     w,
     EvListPods "" ::
     omap (λ p, skip_log (multierr_Combine
                            [validate p; validatePersistentVolumeClaims w p]))
       (filter (λ p, ps_NodeName (pod_Spec p) = "") items)).
Proof.
  intros Hlist. unfold getPods. run. unfold kubeClient_List_pods.
  rewrite Hlist. run. rewrite getPods_range_run. cbn [fst snd app].
  rewrite list_filter_filter, app_nil_r. do 3 f_equal.
  apply list_filter_iff. intros p. tauto.
Qed.

(** ** Daemon overhead *)

Lemma getDaemonOverhead_daemons_run (provisioner : Provisioner)
    (daemonSets : list DaemonSet) (daemons : list Pod) :
  getDaemonOverhead_daemons provisioner daemonSets daemons =
    daemons ++
    filter (λ d,
              Taints_Tolerates (Taints (Constraints_ (Spec provisioner))) d [] = None ∧
              Requirements_Compatible (Requirements_ (Constraints_ (Spec provisioner)))
                (NewPodRequirements d) = None)
      (daemon_pod <$> daemonSets).
Proof.
  revert daemons. induction daemonSets as [|ds rest IH]; intros daemons.
  - cbn. by rewrite app_nil_r.
  - cbn [getDaemonOverhead_daemons fmap list_fmap].
    destruct (Taints_Tolerates _ (daemon_pod ds) _) eqn:Ht.
    { rewrite IH, filter_cons_False; [done|]. intros [? _]. congruence. }
    destruct (Requirements_Compatible _ _) eqn:Hc; rewrite IH.
    + rewrite filter_cons_False; [done|]. intros [_ ?]. congruence.
    + rewrite filter_cons_True by done. by rewrite <- app_assoc.
Qed.

Lemma getDaemonOverhead_range_lookup (deref : ProvisionerPtr → Provisioner)
    (daemonSets : list DaemonSet) (provisioners : list ProvisionerPtr)
    (overhead : gmap nat (gmap string Z)) (p : ProvisionerPtr) :
  getDaemonOverhead_range deref daemonSets provisioners overhead !! p =
    if decide (p ∈ provisioners)
    then Some (RequestsForPods (getDaemonOverhead_daemons (deref p) daemonSets []))
    else overhead !! p.
Proof.
  revert overhead. induction provisioners as [|q rest IH]; intros overhead.
  - cbn. rewrite decide_False; [done|]. by intros ?%elem_of_nil.
  - cbn [getDaemonOverhead_range]. rewrite IH.
    destruct (decide (p ∈ rest)) as [Hin|Hout].
    + rewrite decide_True; [done|by right].
    + destruct (decide (p = q)) as [->|Hne].
      * rewrite decide_True by left. apply lookup_insert_eq.
      * rewrite decide_False.
        -- by apply lookup_insert_ne.
        -- by intros [?|?]%elem_of_cons.
Qed.

(** C7. For every provisioner handed to [getDaemonOverhead], the overhead
    recorded for it is [RequestsForPods] of exactly the daemon set pods whose
    template tolerates the provisioner's taints (with no toleration added)
    and is compatible with its requirements, in the order of the listing;
    other provisioners get no entry.  The provisioner's startup taints are
    not consulted: changing them changes nothing. *)
Theorem getDaemonOverhead_counts_admitted_daemons
    (deref : ProvisionerPtr → Provisioner) (provisioners : list ProvisionerPtr)
    (w : W) (daemonSets : list DaemonSet) :
  kube_daemonsets w = Ok daemonSets →
  ∃ overhead,
    getDaemonOverhead deref provisioners w = (Ok overhead, w, [EvListDaemonSets]) ∧
    (∀ p,
       overhead !! p =
         if decide (p ∈ provisioners)
         then Some (RequestsForPods
                      (filter
                         (λ d,
                            Taints_Tolerates
                              (Taints (Constraints_ (Spec (deref p)))) d [] = None ∧
                            Requirements_Compatible
                              (Requirements_ (Constraints_ (Spec (deref p))))
                              (NewPodRequirements d) = None)
                         (daemon_pod <$> daemonSets)))
         else None) ∧
    (∀ startupTaints : ProvisionerPtr → list Taint,
       getDaemonOverhead (λ p, with_StartupTaints (startupTaints p) (deref p))
         provisioners w =
       getDaemonOverhead deref provisioners w).
Proof.
  intros Hlist.
  exists (getDaemonOverhead_range deref daemonSets provisioners ∅).
  split_and!.
  - unfold getDaemonOverhead. run. rewrite Hlist. by run.
  - intros p. rewrite getDaemonOverhead_range_lookup.
    by rewrite getDaemonOverhead_daemons_run, lookup_empty.
  - intros startupTaints. unfold getDaemonOverhead. run. rewrite Hlist. run.
    do 3 f_equal. generalize (∅ : gmap nat (gmap string Z)).
    induction provisioners as [|q rest IH]; intros overhead; [done|].
    cbn [getDaemonOverhead_range]. rewrite IH. do 3 f_equal.
    by rewrite !getDaemonOverhead_daemons_run.
Qed.

(** ** A provisioning pass *)

(** [getPods] talks to the store only: it lists pods and logs. *)
Lemma getPods_trace (w : W) (e : Event) :
  e ∈ (getPods w).2 →
  e = EvListPods "" ∨ ∃ errs, e = EvLog Debug "Unable to batch pod, %s" errs.
Proof.
  unfold getPods. run. destruct (kubeClient_List_pods "" w) as [items|err]; run.
  - rewrite getPods_range_run. cbn [snd]. rewrite app_nil_r.
    rewrite elem_of_cons, list_elem_of_omap. intros [->|(p & _ & Hp)]; [by left|].
    right. unfold skip_log in Hp.
    destruct (multierr_Combine _) as [errs|]; [|done].
    injection Hp as <-. by eexists.
  - rewrite list_elem_of_singleton. by left.
Qed.

Lemma getPods_world (w : W) : (getPods w).1.2 = w.
Proof.
  unfold getPods. run. destruct (kubeClient_List_pods "" w) as [items|err]; run.
  - by rewrite getPods_range_run.
  - done.
Qed.

(** The ways through a pass. *)
Lemma provision_run (w0 : W) :
  provision w0 =
    (let w := (Batcher_Wait w0).2 in
     let opening :=
       [EvLog Info "Waiting for unschedulable pods" None; EvBatcherWait] ++
       (getPods w).2 in
     match (getPods w).1.1 with
     | Err e => (Some e, w, opening ++ [EvCondBroadcast])
     | Ok pods =>
         if bool_decide (length pods = 0%nat)
         then (None, w, opening ++ [EvCondBroadcast])
         else
           let scheduled := schedule pods w in
           let batched :=
             opening ++ [EvLog Info "Batched %d pod(s) in %s" None] ++ scheduled.2 in
           match scheduled.1.1 with
           | Err e => (Some e, scheduled.1.2, batched ++ [EvCondBroadcast])
           | Ok nodes =>
               let fanout := ParallelizeUntil nodes provision_piece scheduled.1.2 in
               (None, fanout.1.2, batched ++ fanout.2 ++ [EvCondBroadcast])
           end
     end).
Proof.
  pose proof (getPods_world (Batcher_Wait w0).2) as Hw.
  unfold provision, bnd, emit, call, ret.
  destruct (Batcher_Wait w0) as [window w]. cbn [fst snd] in *.
  destruct (getPods w) as [[[pods|e] w1] t1]; cbn [fst snd] in *; subst w1;
    [|by flat].
  destruct (bool_decide (length pods = 0%nat)); [by flat|].
  destruct (schedule pods w) as [[[nodes|e] w'] ts]; cbn [fst snd]; [|by flat].
  destruct (ParallelizeUntil nodes provision_piece w') as [[[] wf] tf].
  cbn [fst snd]. by flat.
Qed.

(** C6. When the list of provisioners loaded by [schedule] is empty,
    [schedule] returns the error "no provisioners found" right after the
    listing, with no node; the pass returns that error (which the loop logs
    at error level), and neither the scheduler nor the cloud provider has
    been called. *)
Theorem schedule_fails_without_provisioners (pods : list Pod) (w : W) :
  kube_provisioners w = Ok [] →
  schedule pods w =
    (Err (errorString "no provisioners found"), w, [EvListProvisioners]) ∧
  (∀ w0 window,
     Batcher_Wait w0 = (window, w) →
     (getPods w).1.1 = Ok pods →
     pods ≠ [] →
     provision w0 =
       (Some (errorString "no provisioners found"), w,
        [EvLog Info "Waiting for unschedulable pods" None; EvBatcherWait] ++
        (getPods w).2 ++
        [EvLog Info "Batched %d pod(s) in %s" None; EvListProvisioners;
         EvCondBroadcast]) ∧
     (∀ solved, EvSolve solved ∉ (provision w0).2) ∧
     (∀ request, EvCloudCreate request ∉ (provision w0).2)).
Proof.
  intros Hlist.
  assert (Hschedule : schedule pods w =
            (Err (errorString "no provisioners found"), w, [EvListProvisioners])).
  { unfold schedule. run. rewrite Hlist. by run. }
  split; [done|]. intros w0 window Hwait Hpods Hsome.
  assert (Hrun : provision w0 =
            (Some (errorString "no provisioners found"), w,
             [EvLog Info "Waiting for unschedulable pods" None; EvBatcherWait] ++
             (getPods w).2 ++
             [EvLog Info "Batched %d pod(s) in %s" None; EvListProvisioners;
              EvCondBroadcast])).
  { rewrite provision_run, Hwait. cbn [snd]. rewrite Hpods.
    rewrite bool_decide_eq_false_2 by (by destruct pods).
    rewrite Hschedule. cbn [fst snd]. by flat. }
  split; [done|]. rewrite Hrun. cbn [snd].
  split; intros x Hin;
    repeat match goal with
      | H : _ ∈ _ ++ _ |- _ => apply elem_of_app in H as [H|H]
      | H : _ ∈ _ :: _ |- _ => apply elem_of_cons in H as [H|H]
      | H : _ ∈ [] |- _ => by apply elem_of_nil in H
      | H : _ ∈ (getPods _).2 |- _ => apply getPods_trace in H as [H|[? H]]
      end; discriminate.
Qed.

Lemma launches_app (t1 t2 : list Event) :
  launches (t1 ++ t2) = launches t1 ++ launches t2.
Proof. apply omap_app. Qed.

Lemma launches_bind (node : Node) (pods : list Pod) (w : W) :
  launches (ParallelizeUntil pods (bind_piece node) w).2 = [].
Proof.
  revert w. induction pods as [|pod pods IH]; intros w; [done|].
  destruct (ctx_cancelled w) eqn:Hstop.
  - by rewrite ParallelizeUntil_cancelled.
  - rewrite ParallelizeUntil_cons_live by done. cbn [snd].
    rewrite launches_app, IH, bind_piece_run.
    destruct (Taints_Tolerates _ pod _); [done|].
    by destruct (Pods_Bind w _ _) as [[e|] w1].
Qed.

(** A launch re-reads its provisioner once, first thing. *)
Lemma launches_launch (node : SNode) (w : W) :
  launches (launch node w).2 = [launch_key node].
Proof.
  unfold launch. fold (launch_key node). run.
  destruct (kube_get_provisioner w _) as [latest|e]; run; [|done].
  destruct (Limits_ExceededBy _ _); run; [done|].
  destruct (cloud_Create w _) as [[k8sNode|e] w1]; run; [|done].
  destruct (mergo_Merge k8sNode _) as [merged|e]; run; [|done].
  destruct (Nodes_Create w1 merged) as [[?|e] w2]; run.
  - rewrite bind_run. cbn [fst snd]. rewrite app_nil_r.
    cbn. by rewrite launches_bind.
  - destruct (IsAlreadyExists e); run; [|done].
    rewrite bind_run. cbn [fst snd]. rewrite app_nil_r.
    cbn. by rewrite launches_bind.
Qed.

Lemma provision_piece_run (node : SNode) (w : W) :
  provision_piece node w =
    (tt, (launch node w).1.2, (launch node w).2 ++ launch_log (launch node w).1.1).
Proof.
  unfold provision_piece. run.
  by destruct (launch node w) as [[[e|] w1] t1]; run.
Qed.

Lemma launches_works (order : list SNode) (w : W) :
  launches (works provision_piece order w).2 = launch_key <$> order.
Proof.
  revert w. induction order as [|node order IH]; intros w; [done|].
  rewrite works_cons. cbn [snd].
  rewrite launches_app, IH, provision_piece_run. cbn [snd].
  rewrite launches_app, launches_launch.
  by destruct (launch node w).1.1.
Qed.


(** ** The loop *)

Lemma NewProvisioner_loop_live (fuel : nat) (w : W) :
  ctx_cancelled w = false →
  NewProvisioner_loop (S fuel) w =
    (let pass := provision w in
     let next := NewProvisioner_loop fuel pass.1.2 in
     (next.1.1, next.1.2, pass.2 ++ pass_log pass.1.1 ++ next.2)).
Proof.
  intros Hlive. cbn [NewProvisioner_loop]. run. rewrite Hlive. run.
  destruct (provision w) as [[[e|] w1] t1]; run; by cbn [pass_log app].
Qed.

Lemma NewProvisioner_loop_cancelled (fuel : nat) (w : W) :
  ctx_cancelled w = true →
  NewProvisioner_loop (S fuel) w = (true, w, [EvLog Info "Stopped provisioner" None]).
Proof. intros Hstop. cbn [NewProvisioner_loop]. run. rewrite Hstop. by run. Qed.

(** C5. The loop is left only at its head and only when the context is
    cancelled there; it then logs "Stopped provisioner".  While the context
    is live, a pass that returns an error costs one error line and the loop
    goes on with the next turn from the world the pass left, exactly as after
    a pass that returns nil.  With a context that is never cancelled the loop
    is never left, however many passes fail. *)
Theorem NewProvisioner_loop_stops_only_on_cancellation :
  (∀ fuel w w' t,
     NewProvisioner_loop fuel w = (true, w', t) →
     ctx_cancelled w' = true ∧
     ∃ t0, t = t0 ++ [EvLog Info "Stopped provisioner" None]) ∧
  (∀ fuel w,
     ctx_cancelled w = false →
     NewProvisioner_loop (S fuel) w =
       (let pass := provision w in
        let next := NewProvisioner_loop fuel pass.1.2 in
        (next.1.1, next.1.2, pass.2 ++ pass_log pass.1.1 ++ next.2))) ∧
  (∀ fuel w,
     ctx_cancelled w = true →
     NewProvisioner_loop (S fuel) w =
       (true, w, [EvLog Info "Stopped provisioner" None])) ∧
  ((∀ w, ctx_cancelled w = false) →
   ∀ fuel w, (NewProvisioner_loop fuel w).1.1 = false).
Proof.
  split_and!.
  - induction fuel as [|fuel IH]; intros w w' t; [by intros [= ]|].
    destruct (ctx_cancelled w) eqn:Hctx.
    + rewrite NewProvisioner_loop_cancelled by done. intros [= <- <-].
      split; [done|]. by exists [].
    + rewrite NewProvisioner_loop_live by done. cbn zeta.
      destruct (NewProvisioner_loop fuel (provision w).1.2) as [[b w1] t1] eqn:Hnext.
      cbn [fst snd]. intros [= -> -> <-].
      destruct (IH _ _ _ Hnext) as [Hstop [t0 ->]]. split; [done|].
      exists ((provision w).2 ++ pass_log (provision w).1.1 ++ t0). by flat.
  - apply NewProvisioner_loop_live.
  - apply NewProvisioner_loop_cancelled.
  - intros Hlive. induction fuel as [|fuel IH]; intros w; [done|].
    rewrite NewProvisioner_loop_live by done. cbn zeta. cbn [fst]. apply IH.
Qed.

(** ** More on binding *)

Lemma decisions_app (t1 t2 : list Event) :
  decisions (t1 ++ t2) = decisions t1 ++ decisions t2.
Proof. apply omap_app. Qed.

Lemma decisions_bind_piece (node : Node) (pod : Pod) (w : W) :
  decisions (bind_piece node pod w).2 = [decision node pod].
Proof.
  rewrite bind_piece_run. unfold decision.
  destruct (Taints_Tolerates _ pod _); [done|].
  by destruct (Pods_Bind w _ _) as [[e|] w1].
Qed.

Lemma decisions_works (node : Node) (order : list Pod) (w : W) :
  decisions (works (bind_piece node) order w).2 = decision node <$> order.
Proof.
  revert w. induction order as [|pod order IH]; intros w; [done|].
  rewrite works_cons. cbn [snd].
  by rewrite decisions_app, decisions_bind_piece, IH.
Qed.


(** X1. [bind] does nothing at all when it is handed no pod, and nothing when
    its context is cancelled already: no call, no event, nil. *)
Theorem bind_without_work (node : Node) (pods : list Pod) (w : W) :
  pods = [] ∨ ctx_cancelled w = true →
  bind node pods w = (None, w, []).
Proof.
  intros [->|Hstop]; rewrite bind_run.
  - done.
  - by rewrite ParallelizeUntil_cancelled.
Qed.

(** ** More on launching *)

(** The ways through a launch. *)
Lemma launch_run (node : SNode) (w : W) :
  launch node w =
    match kube_get_provisioner w (launch_key node) with
    | Err e =>
        (Some (wrapError "getting current resource usage" e), w,
         [EvGetProvisioner (launch_key node)])
    | Ok latest =>
        match Limits_ExceededBy (Limits_ (Spec latest)) (Resources (Status latest)) with
        | Some err => (Some err, w, [EvGetProvisioner (launch_key node)])
        | None =>
            let created := cloud_Create w (launch_request node) in
            let called :=
              [EvGetProvisioner (launch_key node); EvCloudCreate (launch_request node)] in
            match created.1 with
            | Err e =>
                (Some (wrapError "creating cloud provider machine" e), created.2, called)
            | Ok k8sNode =>
                match mergo_Merge k8sNode
                        (ToNode (Constraints_ (Spec (sn_Provisioner node)))) with
                | Err e =>
                    (Some (wrapError "merging cloud provider node" e), created.2, called)
                | Ok merged =>
                    let registered := Nodes_Create created.2 merged in
                    let bound := bind merged (sn_Pods node) registered.2 in
                    match registered.1 with
                    | Ok _ =>
                        (None, bound.1.2,
                         called ++ [EvNodesCreate merged; EvLog Info "Created %s" None] ++
                         bound.2)
                    | Err e =>
                        if IsAlreadyExists e
                        then (None, bound.1.2,
                              called ++
                              [EvNodesCreate merged;
                               EvLog Debug "node %s already registered" None;
                               EvLog Info "Created %s" None] ++ bound.2)
                        else (Some (wrapError "creating node %s" e), registered.2,
                              called ++ [EvNodesCreate merged])
                    end
                end
            end
        end
    end.
Proof.
  unfold launch. fold (launch_key node). run.
  destruct (kube_get_provisioner w _) as [latest|e]; run; [|done].
  destruct (Limits_ExceededBy _ _); run; [done|].
  destruct (cloud_Create w _) as [[k8sNode|e] w1]; run; [|done].
  destruct (mergo_Merge k8sNode _) as [merged|e]; run; [|done].
  destruct (Nodes_Create w1 merged) as [[?|e] w2]; run.
  - rewrite bind_run. cbn [fst snd]. by flat.
  - destruct (IsAlreadyExists e); run; [|done].
    rewrite bind_run. cbn [fst snd]. by flat.
Qed.

(** X3. A launch that returns an error has decided nothing for any pod: its
    trace has no binding call and no [PodShouldSchedule] event. *)
Theorem launch_error_binds_nothing (node : SNode) (w : W) (e : error) :
  (launch node w).1.1 = Some e →
  decisions (launch node w).2 = [].
Proof.
  rewrite launch_run.
  destruct (kube_get_provisioner w _) as [latest|?]; [|done].
  destruct (Limits_ExceededBy _ _); [done|]. cbn zeta.
  destruct (cloud_Create w _) as [[k8sNode|?] w1]; cbn [fst snd]; [|done].
  destruct (mergo_Merge k8sNode _) as [merged|?]; [|done].
  destruct (Nodes_Create w1 merged) as [[?|e'] w2]; cbn [fst snd]; [done|].
  by destruct (IsAlreadyExists e').
Qed.

(** X4. A launch asks the cloud provider for at most one machine, with the
    request built from the node, and only after the provisioner was re-read
    and found within its limits. *)
Theorem launch_creates_within_limits (node : SNode) (w : W) :
  creations (launch node w).2 = [] ∨
  (creations (launch node w).2 = [launch_request node] ∧
   ∃ latest,
     kube_get_provisioner w (launch_key node) = Ok latest ∧
     Limits_ExceededBy (Limits_ (Spec latest)) (Resources (Status latest)) = None).
Proof.
  assert (Hbind : ∀ n ps w', creations (bind n ps w').2 = []).
  { intros n ps w'. rewrite bind_run. cbn [snd]. revert w'.
    induction ps as [|pod ps IH]; intros w'; [done|].
    cbn [ParallelizeUntil]. run. unfold creations in *.
    destruct (ctx_cancelled w'); run; rewrite ?omap_app, ?IH; [done|].
    rewrite bind_piece_run. destruct (Taints_Tolerates _ pod _); [done|].
    by destruct (Pods_Bind w' _ _) as [[?|] ?]. }
  rewrite launch_run.
  destruct (kube_get_provisioner w _) as [latest|?]; [|by left].
  destruct (Limits_ExceededBy _ _) eqn:Hlimits; [by left|]. cbn zeta.
  right. split; [|by exists latest].
  destruct (cloud_Create w _) as [[k8sNode|?] w1]; cbn [fst snd]; [|done].
  destruct (mergo_Merge k8sNode _) as [merged|?]; [|done].
  unfold creations in *.
  destruct (Nodes_Create w1 merged) as [[?|e'] w2]; cbn [fst snd].
  - rewrite !omap_app, Hbind. done.
  - destruct (IsAlreadyExists e'); cbn [snd]; [|done].
    rewrite !omap_app, Hbind. done.
Qed.

(** X5. Every pod a launch binds is one of the node's pods, and it is bound to
    the one node object the launch registered. *)
Theorem launch_binds_to_registered_node (node : SNode) (w : W) ns b :
  EvPodsBind ns b ∈ (launch node w).2 →
  ∃ merged pod,
    registrations (launch node w).2 = [merged] ∧
    pod ∈ sn_Pods node ∧
    b = binding_for merged pod ∧
    or_Name (b_Target b) = node_Name merged.
Proof.
  assert (Hbind : ∀ n ps w', registrations (bind n ps w').2 = []).
  { intros n ps w'. rewrite bind_run. cbn [snd]. revert w'.
    induction ps as [|pod ps IH]; intros w'; [done|].
    cbn [ParallelizeUntil]. run. unfold registrations in *.
    destruct (ctx_cancelled w'); run; rewrite ?omap_app, ?IH; [done|].
    rewrite bind_piece_run. destruct (Taints_Tolerates _ pod _); [done|].
    by destruct (Pods_Bind w' _ _) as [[?|] ?]. }
  assert (Hcalls : ∀ merged w',
            EvPodsBind ns b ∈ (bind merged (sn_Pods node) w').2 →
            ∃ pod, pod ∈ sn_Pods node ∧ b = binding_for merged pod).
  { intros merged w'. rewrite bind_run. cbn [snd].
    intros (pod & ? & _ & _ & ->)%ParallelizeUntil_bind_calls. by exists pod. }
  rewrite launch_run.
  destruct (kube_get_provisioner w _) as [latest|?]; cbn [snd]; [|absent].
  destruct (Limits_ExceededBy _ _); cbn [snd]; [absent|]. cbn zeta.
  destruct (cloud_Create w _) as [[k8sNode|?] w1]; cbn [fst snd]; [|absent].
  destruct (mergo_Merge k8sNode _) as [merged|?]; cbn [snd]; [|absent].
  unfold registrations in *.
  destruct (Nodes_Create w1 merged) as [[?|e'] w2]; cbn [fst snd].
  - rewrite !omap_app, Hbind. cbn [app].
    rewrite !elem_of_cons. intros [?|[?|[?|[?|Hin]]]]; try discriminate.
    destruct (Hcalls _ _ Hin) as (pod & ? & ->). by exists merged, pod.
  - destruct (IsAlreadyExists e'); cbn [snd app]; [|absent].
    cbn [omap list_omap]. rewrite Hbind.
    rewrite !elem_of_cons. intros [?|[?|[?|[?|[?|Hin]]]]]; try discriminate.
    destruct (Hcalls _ _ Hin) as (pod & ? & ->). by exists merged, pod.
Qed.

(** ** More on scheduling *)

Lemma schedule_range_world items instanceTypes visited (w : W) :
  (schedule_range items instanceTypes visited w).1.2 = w.
Proof.
  revert instanceTypes visited.
  induction items as [|p items IH]; intros instanceTypes visited; [done|].
  cbn [schedule_range]. run.
  destruct (cloud_GetRequirements w _); run; [|done].
  destruct (cloud_GetInstanceTypes w _); run; [|done].
  apply IH.
Qed.

Lemma schedule_inject_world pods injected (w : W) :
  (schedule_inject pods injected w).1.2 = w.
Proof.
  revert injected. induction pods as [|p pods IH]; intros injected; [done|].
  cbn [schedule_inject]. run.
  destruct (volumeTopology_Inject w p); run; [apply IH|done].
Qed.

(** The ways through [schedule]. *)
Lemma schedule_run (pods : list Pod) (w : W) :
  schedule pods w =
    match kube_provisioners w with
    | Err e => (Err (wrapError "listing provisioners" e), w, [EvListProvisioners])
    | Ok provisionerList =>
        let ranged := schedule_range provisionerList ∅ [] w in
        let listed := EvListProvisioners :: ranged.2 in
        match ranged.1.1 with
        | Err e => (Err e, w, listed)
        | Ok (instanceTypes, items) =>
            let provisioners := seq 0 (length items) in
            let deref := λ p : ProvisionerPtr, items !!! p in
            if bool_decide (length provisioners = 0%nat)
            then (Err (errorString "no provisioners found"), w, listed)
            else
              let injected := schedule_inject pods [] w in
              match injected.1.1 with
              | Err e => (Err e, w, listed ++ injected.2)
              | Ok pods' =>
                  let counted := listed ++ injected.2 ++ [EvNewTopology] in
                  match NewTopology w provisioners deref pods' with
                  | Err e => (Err (wrapError "tracking topology counts" e), w, counted)
                  | Ok topology =>
                      match kube_daemonsets w with
                      | Err e =>
                          (Err (wrapError "getting daemon overhead"
                                  (wrapError "listing daemonsets" e)),
                           w, counted ++ [EvListDaemonSets])
                      | Ok daemonSets =>
                          let solved :=
                            Solve w
                              (mkSchedulerArgs provisioners deref topology instanceTypes
                                 (getDaemonOverhead_range deref daemonSets provisioners ∅))
                              pods' in
                          (solved.1, solved.2,
                           counted ++ [EvListDaemonSets; EvSolve pods'])
                      end
                  end
              end
        end
    end.
Proof.
  unfold schedule. run.
  destruct (kube_provisioners w) as [provisionerList|e]; run; [|done].
  rewrite schedule_range_world.
  destruct (schedule_range provisionerList ∅ [] w).1.1 as [[its items]|e]; run;
    [|by flat].
  destruct (bool_decide _); run; [by flat|].
  rewrite schedule_inject_world.
  destruct (schedule_inject pods [] w).1.1 as [pods'|e]; run; [|by flat].
  destruct (NewTopology w _ _ pods') as [topology|e]; run; [|by flat].
  unfold getDaemonOverhead. run.
  destruct (kube_daemonsets w) as [daemonSets|e]; run; [|by flat].
  destruct (Solve w _ pods') as [r w1]. cbn [fst snd]. by flat.
Qed.

Lemma schedule_range_trace items instanceTypes visited (w : W) (e : Event) :
  e ∈ (schedule_range items instanceTypes visited w).2 →
  (∃ p, e = EvGetRequirements p) ∨ (∃ p, e = EvGetInstanceTypes p).
Proof.
  revert instanceTypes visited.
  induction items as [|p items IH]; intros instanceTypes visited.
  { cbn. by intros ?%elem_of_nil. }
  cbn [schedule_range]. run.
  destruct (cloud_GetRequirements w _); run.
  2: { rewrite list_elem_of_singleton. intros ->. left. by eexists. }
  destruct (cloud_GetInstanceTypes w _); run.
  2: { rewrite !elem_of_cons, elem_of_nil.
       intros [->|[->|[]]]; [left|right]; by eexists. }
  rewrite !elem_of_cons. intros [->|[->|Hin]]; [left|right|]; try by eexists.
  by apply IH in Hin.
Qed.

Lemma schedule_inject_trace pods injected (w : W) (e : Event) :
  e ∈ (schedule_inject pods injected w).2 → ∃ p, e = EvInject p.
Proof.
  revert injected. induction pods as [|p pods IH]; intros injected.
  { cbn. by intros ?%elem_of_nil. }
  cbn [schedule_inject]. run.
  destruct (volumeTopology_Inject w p); run.
  - rewrite elem_of_cons. intros [->|Hin]; [by eexists|by apply IH in Hin].
  - rewrite list_elem_of_singleton. intros ->. by eexists.
Qed.

(** The injection loop hands on the pods as [Inject] returned them, one
    for one and in order. *)
Lemma schedule_inject_ok pods injected pods' (w : W) :
  (schedule_inject pods injected w).1.1 = Ok pods' →
  ∃ more, pods' = injected ++ more ∧
    Forall2 (λ pod pod', volumeTopology_Inject w pod = Ok pod') pods more.
Proof.
  revert injected. induction pods as [|p pods IH]; intros injected.
  - cbn. intros [= <-]. exists []. by rewrite app_nil_r.
  - cbn [schedule_inject]. run.
    destruct (volumeTopology_Inject w p) as [p'|e] eqn:Hp; run; [|done].
    intros (more & -> & Hall)%IH. exists (p' :: more).
    split; [by rewrite <- app_assoc|by constructor].
Qed.

Lemma schedule_trace (pods : list Pod) (w : W) (e : Event) :
  e ∈ (schedule pods w).2 →
  e = EvListProvisioners ∨ (∃ p, e = EvGetRequirements p) ∨
  (∃ p, e = EvGetInstanceTypes p) ∨ (∃ p, e = EvInject p) ∨
  e = EvNewTopology ∨ e = EvListDaemonSets ∨ ∃ ps, e = EvSolve ps.
Proof.
  rewrite schedule_run.
  destruct (kube_provisioners w) as [provisionerList|?]; cbn [snd].
  2: { rewrite list_elem_of_singleton. tauto. }
  cbn zeta.
  pose proof (schedule_range_trace provisionerList ∅ [] w e) as Hrange.
  destruct (schedule_range provisionerList ∅ [] w).1.1 as [[its items]|?]; cbn [snd].
  2: { rewrite elem_of_cons. tauto. }
  destruct (bool_decide _); cbn [snd]; [rewrite elem_of_cons; tauto|].
  pose proof (schedule_inject_trace pods [] w e) as Hinject.
  destruct (schedule_inject pods [] w).1.1 as [pods'|?]; cbn [snd].
  2: { rewrite elem_of_app, elem_of_cons. tauto. }
  destruct (NewTopology w _ _ pods') as [topology|?]; cbn [snd].
  2: { rewrite !elem_of_app, !elem_of_cons, elem_of_nil. tauto. }
  destruct (kube_daemonsets w) as [daemonSets|?]; cbn [snd];
    rewrite !elem_of_app, !elem_of_cons, elem_of_nil; [|tauto].
  assert (e = EvSolve pods' → ∃ ps, e = EvSolve ps) by eauto. tauto.
Qed.

(** X6. [schedule] returns nodes only as the answer of the scheduler: then Solve
    was its last call and its only one, and it was given the pods as the
    volume topology injection returned them, one for one and in order. *)
Theorem schedule_nodes_come_from_Solve (pods : list Pod) (w : W) (nodes : list SNode) :
  (schedule pods w).1.1 = Ok nodes →
  ∃ t pods',
    (schedule pods w).2 = t ++ [EvSolve pods'] ∧
    (∀ ps, EvSolve ps ∉ t) ∧
    Forall2 (λ pod pod', volumeTopology_Inject w pod = Ok pod') pods pods'.
Proof.
  rewrite schedule_run.
  destruct (kube_provisioners w) as [provisionerList|?]; [|done]. cbn zeta.
  pose proof (schedule_range_trace provisionerList ∅ [] w) as Hrange.
  destruct (schedule_range provisionerList ∅ [] w).1.1 as [[its items]|?]; [|done].
  destruct (bool_decide _); [done|].
  pose proof (schedule_inject_trace pods [] w) as Hinject.
  pose proof (λ pods', schedule_inject_ok pods [] pods' w) as Hok.
  destruct (schedule_inject pods [] w).1.1 as [pods'|?]; [|done].
  destruct (NewTopology w _ _ pods') as [topology|?]; [|done].
  destruct (kube_daemonsets w) as [daemonSets|?]; [|done].
  cbn [fst snd]. intros _.
  exists (EvListProvisioners :: (schedule_range provisionerList ∅ [] w).2 ++
          (schedule_inject pods [] w).2 ++ [EvNewTopology; EvListDaemonSets]), pods'.
  split_and!.
  - by flat.
  - intros ps. rewrite elem_of_cons, !elem_of_app, !elem_of_cons, elem_of_nil.
    intros [?|[[[? ?]|[? ?]]%Hrange|[[? ?]%Hinject|[?|[?|[]]]]]]; discriminate.
  - destruct (Hok pods' eq_refl) as (more & -> & Hall). done.
Qed.

Lemma schedule_range_app pre rest instanceTypes visited (w : W) :
  Forall (λ q, ∃ r ts,
            cloud_GetRequirements w (Provider (Constraints_ (Spec q))) = Ok r ∧
            cloud_GetInstanceTypes w (Provider (Constraints_ (Spec q))) = Ok ts) pre →
  ∃ instanceTypes' visited',
    schedule_range (pre ++ rest) instanceTypes visited w =
      (let r := schedule_range rest instanceTypes' visited' w in
       (r.1.1, r.1.2,
        (pre ≫= λ q, [EvGetRequirements (Provider (Constraints_ (Spec q)));
                      EvGetInstanceTypes (Provider (Constraints_ (Spec q)))]) ++
        r.2)).
Proof.
  intros Hpre. revert instanceTypes visited.
  induction Hpre as [|q pre (r & ts & Hr & Hts) _ IH]; intros instanceTypes visited.
  - exists instanceTypes, visited. cbn.
    by destruct (schedule_range rest instanceTypes visited w) as [[? ?] ?].
  - cbn [app schedule_range]. run. rewrite Hr. run. rewrite Hts. run.
    edestruct IH as (its' & visited' & ->). exists its', visited'. cbn zeta.
    cbn [fst snd]. by flat.
Qed.

(** X7. [schedule] stops at the first provisioner for which the cloud provider
    fails: after the calls for the provisioners before it, it asks for the
    requirements of that provisioner and, if those came, for its instance
    types, and returns the error wrapped; no later provisioner is looked at
    and nothing else is called. *)
Theorem schedule_stops_at_first_failing_provisioner (pods : list Pod) (w : W)
    (pre : list Provisioner) (p : Provisioner) (post : list Provisioner) (e : error) :
  kube_provisioners w = Ok (pre ++ p :: post) →
  Forall (λ q, ∃ r ts,
            cloud_GetRequirements w (Provider (Constraints_ (Spec q))) = Ok r ∧
            cloud_GetInstanceTypes w (Provider (Constraints_ (Spec q))) = Ok ts) pre →
  let provider := λ q, Provider (Constraints_ (Spec q)) in
  let calls := pre ≫= λ q, [EvGetRequirements (provider q); EvGetInstanceTypes (provider q)] in
  (cloud_GetRequirements w (provider p) = Err e →
   schedule pods w =
     (Err (wrapError "getting provider requirements" e), w,
      EvListProvisioners :: calls ++ [EvGetRequirements (provider p)])) ∧
  (∀ r,
     cloud_GetRequirements w (provider p) = Ok r →
     cloud_GetInstanceTypes w (provider p) = Err e →
     schedule pods w =
       (Err (wrapError "getting instance types" e), w,
        EvListProvisioners :: calls ++
        [EvGetRequirements (provider p); EvGetInstanceTypes (provider p)])).
Proof.
  intros Hlist Hpre provider calls.
  destruct (schedule_range_app pre (p :: post) ∅ [] w Hpre) as (its & visited & Hrun).
  split.
  - intros Hfail. rewrite schedule_run, Hlist. cbn zeta. rewrite Hrun.
    cbn [schedule_range]. run. fold (provider p). rewrite Hfail. run. by flat.
  - intros r Hr Hfail. rewrite schedule_run, Hlist. cbn zeta. rewrite Hrun.
    cbn [schedule_range]. run. fold (provider p). rewrite Hr. run.
    fold (provider p). rewrite Hfail. run. by flat.
Qed.

(** X8. The loop of [schedule] over the provisioners rewrites their labels and
    requirements only: identity, taints, startup taints, kubelet
    configuration, provider payload, limits and status of every provisioner
    are handed on as listed, one for one and in order, and the labels are the
    listed ones joined with the provisioner-name label. *)
Theorem schedule_range_rewrites_labels_and_requirements_only
    (items : list Provisioner) (instanceTypes instanceTypes' : gmap string (list InstanceType))
    (visited items' : list Provisioner) (w : W) :
  (schedule_range items instanceTypes visited w).1.1 = Ok (instanceTypes', items') →
  ∃ more,
    items' = visited ++ more ∧
    Forall2
      (λ p p',
         prov_ObjectMeta p' = prov_ObjectMeta p ∧ Status p' = Status p ∧
         Limits_ (Spec p') = Limits_ (Spec p) ∧
         Taints (Constraints_ (Spec p')) = Taints (Constraints_ (Spec p)) ∧
         StartupTaints (Constraints_ (Spec p')) = StartupTaints (Constraints_ (Spec p)) ∧
         KubeletConfiguration_ (Constraints_ (Spec p')) =
           KubeletConfiguration_ (Constraints_ (Spec p)) ∧
         Provider (Constraints_ (Spec p')) = Provider (Constraints_ (Spec p)) ∧
         Labels (Constraints_ (Spec p')) =
           UnionStringMaps [Labels (Constraints_ (Spec p));
                            {[ProvisionerNameLabelKey := prov_Name p]}])
      items more.
Proof.
  revert instanceTypes visited.
  induction items as [|p items IH]; intros instanceTypes visited.
  - cbn. intros [= <- <-]. exists []. by rewrite app_nil_r.
  - cbn [schedule_range]. run.
    destruct (cloud_GetRequirements w _); run; [|done].
    destruct (cloud_GetInstanceTypes w _); run; [|done].
    intros (more & -> & Hall)%IH. eexists (_ :: more).
    split; [by rewrite <- app_assoc|]. by constructor.
Qed.

(** ** More on a pass *)

Lemma launches_none (t : list Event) :
  (∀ e, e ∈ t → ∀ key, e ≠ EvGetProvisioner key) → launches t = [].
Proof.
  induction t as [|e t IH]; intros Hnone; [done|].
  unfold launches in *. cbn [omap list_omap].
  rewrite IH by (intros e' ?; apply Hnone; by right).
  destruct e; try done. by destruct (Hnone (EvGetProvisioner key) ltac:(left) key).
Qed.

Lemma launches_getPods (w : W) : launches (getPods w).2 = [].
Proof.
  apply launches_none. intros e [->|[? ->]]%getPods_trace; discriminate.
Qed.

Lemma launches_schedule (pods : list Pod) (w : W) : launches (schedule pods w).2 = [].
Proof.
  apply launches_none. intros e He%schedule_trace key.
  destruct He as [->|[[? ->]|[[? ->]|[[? ->]|[->|[->|[? ->]]]]]]]; discriminate.
Qed.

(** X9. [getPods] fails exactly when the listing fails: it then returns the
    error wrapped as "listing pods" and has looked at no pod. *)
Theorem getPods_fails_with_the_listing (w : W) :
  (∀ e, kube_pods w = Err e →
        getPods w = (Err (wrapError "listing pods" e), w, [EvListPods ""])) ∧
  (∀ e, (getPods w).1.1 = Err e →
        ∃ e', kube_pods w = Err e' ∧ e = wrapError "listing pods" e').
Proof.
  split; intros e.
  - intros Hlist. unfold getPods. run. unfold kubeClient_List_pods.
    rewrite Hlist. by run.
  - unfold getPods. run. unfold kubeClient_List_pods.
    destruct (kube_pods w) as [items|e']; run.
    + by rewrite getPods_range_run.
    + intros [= <-]. by exists e'.
Qed.

(** X10. A pass returns an error only for what happens before the launches: the
    error of [getPods], or, when there are pods, the error of [schedule].
    Nothing a launch does makes the pass fail. *)
Theorem provision_fails_only_before_launching (w0 : W) (e : error) :
  (provision w0).1.1 = Some e ↔
  (getPods (Batcher_Wait w0).2).1.1 = Err e ∨
  ∃ pods,
    (getPods (Batcher_Wait w0).2).1.1 = Ok pods ∧ pods ≠ [] ∧
    (schedule pods (Batcher_Wait w0).2).1.1 = Err e.
Proof.
  rewrite provision_run. cbn zeta.
  destruct (getPods (Batcher_Wait w0).2).1.1 as [pods|e1]; cbn [fst].
  2: { split; [intros [= ->]; by left|]. by intros [[= ->]|(? & [=] & _)]. }
  destruct pods as [|pod pods]; cbn [length bool_decide decide_rel].
  { rewrite bool_decide_eq_true_2 by done. cbn [fst].
    split; [done|]. by intros [[=]|(? & [= <-] & ? & _)]. }
  rewrite bool_decide_eq_false_2 by done.
  destruct (schedule (pod :: pods) (Batcher_Wait w0).2).1.1 as [nodes|e2] eqn:Hs;
    cbn [fst].
  - split; [done|]. intros [[=]|(? & [= <-] & _ & Hs')]. congruence.
  - split.
    + intros [= ->]. right. eauto.
    + intros [[=]|(? & [= <-] & _ & Hs')]. congruence.
Qed.

(** X11. A pass that returns an error has started no launch and so has created
    no machine. *)
Theorem provision_error_launches_nothing (w0 : W) (e : error) :
  (provision w0).1.1 = Some e →
  launches (provision w0).2 = [].
Proof.
  rewrite provision_run. cbn zeta.
  destruct (getPods (Batcher_Wait w0).2).1.1 as [pods|e1]; cbn [fst snd].
  2: { intros _. rewrite !launches_app, launches_getPods. done. }
  destruct (bool_decide _); [done|].
  destruct (schedule pods (Batcher_Wait w0).2).1.1 as [nodes|e2]; cbn [fst snd];
    [done|].
  intros _. rewrite !launches_app, launches_getPods, launches_schedule. done.
Qed.

(** X13. When no pod is left after the filter, the pass is over at once: it
    returns nil, lists no provisioner, and the only call that can have
    changed the world is the wait. *)
Theorem provision_without_pods (w0 : W) :
  (getPods (Batcher_Wait w0).2).1.1 = Ok [] →
  provision w0 =
    (None, (Batcher_Wait w0).2,
     [EvLog Info "Waiting for unschedulable pods" None; EvBatcherWait] ++
     (getPods (Batcher_Wait w0).2).2 ++ [EvCondBroadcast]).
Proof. intros Hpods. rewrite provision_run. cbn zeta. by rewrite Hpods. Qed.

(** X14. Every pass, whichever way it takes, starts with the wait on the batcher
    and ends with the broadcast on the condition variable. *)
Theorem provision_waits_first_and_broadcasts_last (w0 : W) :
  ∃ between,
    (provision w0).2 =
      [EvLog Info "Waiting for unschedulable pods" None; EvBatcherWait] ++
      between ++ [EvCondBroadcast].
Proof.
  rewrite provision_run. cbn zeta.
  destruct (getPods (Batcher_Wait w0).2).1.1 as [pods|?]; cbn [snd].
  2: { exists (getPods (Batcher_Wait w0).2).2. by flat. }
  destruct (bool_decide _); cbn [snd];
    [exists (getPods (Batcher_Wait w0).2).2; by flat|].
  destruct (schedule pods (Batcher_Wait w0).2).1.1 as [nodes|?]; cbn [snd].
  - exists ((getPods (Batcher_Wait w0).2).2 ++
            [EvLog Info "Batched %d pod(s) in %s" None] ++
            (schedule pods (Batcher_Wait w0).2).2 ++
            (ParallelizeUntil nodes provision_piece
               (schedule pods (Batcher_Wait w0).2).1.2).2).
    by flat.
  - exists ((getPods (Batcher_Wait w0).2).2 ++
            [EvLog Info "Batched %d pod(s) in %s" None] ++
            (schedule pods (Batcher_Wait w0).2).2).
    by flat.
Qed.

(** ** More on the daemon overhead and the loop *)

(** X15. [getDaemonOverhead] makes one call, the listing of the daemon sets, and
    leaves the world as it was; it fails exactly when that listing fails, and
    then returns the error wrapped as "listing daemonsets": no daemon set
    and no provisioner makes it fail. *)
Theorem getDaemonOverhead_fails_with_the_listing
    (deref : ProvisionerPtr → Provisioner) (provisioners : list ProvisionerPtr)
    (w : W) :
  (getDaemonOverhead deref provisioners w).1.2 = w ∧
  (getDaemonOverhead deref provisioners w).2 = [EvListDaemonSets] ∧
  (∀ e,
     (getDaemonOverhead deref provisioners w).1.1 = Err e ↔
     ∃ e', kube_daemonsets w = Err e' ∧ e = wrapError "listing daemonsets" e').
Proof.
  unfold getDaemonOverhead. run.
  destruct (kube_daemonsets w) as [daemonSets|e']; run.
  - split_and!; [done..|]. intros e. split; [done|]. by intros (? & [=] & _).
  - split_and!; [done..|]. intros e. split.
    + intros [= <-]. by exists e'.
    + by intros (? & [= <-] & ->).
Qed.

(** Once the loop has been left within some number of turns, allowing it
    more turns changes nothing: same final world, same trace. *)
Lemma NewProvisioner_loop_more_fuel (fuel more : nat) (w w' : W) (t : list Event) :
  NewProvisioner_loop fuel w = (true, w', t) →
  NewProvisioner_loop (fuel + more) w = (true, w', t).
Proof.
  revert w w' t. induction fuel as [|fuel IH]; intros w w' t; [by intros [=]|].
  cbn [Nat.add]. destruct (ctx_cancelled w) eqn:Hctx.
  - by rewrite !NewProvisioner_loop_cancelled.
  - rewrite !NewProvisioner_loop_live by done. cbn zeta.
    destruct (NewProvisioner_loop fuel (provision w).1.2) as [[b w1] t1] eqn:Hnext.
    cbn [fst snd]. intros [= -> -> <-]. by rewrite (IH _ _ _ Hnext).
Qed.

End Verification.

(** * Facts about the strings functions *)

Section strings_facts.
Import strings.
Implicit Types s sep : list ascii.

Lemma Index_head s sep :
  Index s sep =
    if bool_decide (occurs sep s 0) then Some 0%nat
    else match s with [] => None | _ :: s' => S <$> Index s' sep end.
Proof. by destruct s. Qed.

Lemma Index_None s sep : Index s sep = None ↔ ∀ i, ¬ occurs sep s i.
Proof.
  induction s as [|c s IH]; rewrite Index_head; case_bool_decide as Hhead.
  - split; [done|]. intros Hno. by destruct (Hno 0%nat).
  - split; [|done]. intros _ i. unfold occurs in *. by rewrite drop_nil in *.
  - split; [done|]. intros Hno. by destruct (Hno 0%nat).
  - destruct (Index s sep) as [m|]; cbn.
    + split; [done|]. intros Hno.
      assert (Some m = None) as [=]. { apply IH. intros i. apply (Hno (S i)). }
    + split; [|done]. intros _ [|i]; [done|]. by apply (proj1 IH).
Qed.

Lemma Index_Some s sep m :
  Index s sep = Some m ↔ occurs sep s m ∧ ∀ i, (i < m)%nat → ¬ occurs sep s i.
Proof.
  revert m. induction s as [|c s IH]; intros m; rewrite Index_head;
    case_bool_decide as Hhead.
  - split; [intros [= <-]; split; [done|lia]|].
    intros [_ Hfirst]. destruct m as [|m]; [done|].
    by destruct (Hfirst 0%nat ltac:(lia)).
  - split; [done|]. intros [Hocc _]. unfold occurs in *. by rewrite drop_nil in *.
  - split; [intros [= <-]; split; [done|lia]|].
    intros [_ Hfirst]. destruct m as [|m]; [done|].
    by destruct (Hfirst 0%nat ltac:(lia)).
  - split.
    + intros Hm. destruct (Index s sep) as [m'|] eqn:Hrest; [|done].
      cbn in Hm. injection Hm as <-.
      destruct (proj1 (IH m') eq_refl) as [Hocc Hfirst]. split; [done|].
      intros [|i] ?; [done|]. apply (Hfirst i). lia.
    + intros [Hocc Hfirst]. destruct m as [|m]; [done|].
      rewrite (proj2 (IH m)); [done|]. split; [done|].
      intros i ?. apply (Hfirst (S i)). lia.
Qed.

Lemma occurs_split sep s i :
  occurs sep s i → s = take i s ++ sep ++ drop (i + length sep) s.
Proof.
  unfold occurs. intros Hocc.
  rewrite <- (drop_drop s (length sep) i). rewrite <- Hocc at 1.
  by rewrite (take_drop (length sep)), take_drop.
Qed.

Lemma occurs_app sep a b : occurs sep (a ++ sep ++ b) (length a).
Proof. unfold occurs. by rewrite drop_app_length, take_app_length. Qed.

(** Whether [sep] stands at [i] depends on the first [i + length sep]
    bytes only. *)
Lemma occurs_take sep s i n :
  (i + length sep ≤ n)%nat → occurs sep (take n s) i ↔ occurs sep s i.
Proof.
  intros Hn. unfold occurs.
  rewrite !take_drop_commute, take_take. by rewrite Nat.min_l by lia.
Qed.

Lemma occurs_length sep s i : sep ≠ [] → occurs sep s i → (i + length sep ≤ length s)%nat.
Proof.
  unfold occurs. intros Hne Hocc. apply (f_equal length) in Hocc.
  rewrite length_take, length_drop in Hocc.
  assert (0 < length sep)%nat by (destruct sep; cbn; [done|lia]). lia.
Qed.

Lemma occurs_drop sep s n i : occurs sep (drop n s) i ↔ occurs sep s (n + i).
Proof. unfold occurs. by rewrite drop_drop. Qed.

(** Two instances of [sep] that overlap make [sep] overlap itself. *)
Lemma occurs_overlap sep s i k :
  occurs sep s i → occurs sep s (i + k) → (k < length sep)%nat →
  drop k sep = take (length sep - k) sep.
Proof.
  unfold occurs. intros H1 H2 Hk.
  rewrite <- H1 at 1. rewrite <- H2 at 3.
  rewrite take_take, Nat.min_l by lia.
  rewrite <- (drop_drop s k i).
  rewrite (take_drop_commute (drop i s)).
  by replace (k + (length sep - k))%nat with (length sep) by lia.
Qed.

Lemma genSplit_Join turns s sep : Join (genSplit turns s sep) sep = s.
Proof.
  revert s. induction turns as [|turns IH]; intros s; [done|].
  cbn [genSplit]. destruct (Index s sep) as [m|] eqn:Hm; [|done].
  apply Index_Some in Hm as [Hocc _].
  specialize (IH (drop (m + length sep) s)).
  cbn [Join]. destruct (genSplit turns _ sep) as [|e rest] eqn:Hg.
  - by destruct turns; cbn in Hg; [|destruct (Index _ sep)].
  - rewrite IH. symmetry. by apply occurs_split.
Qed.

(** [strings.Join(strings.Split(s, sep), sep)] gives [s] back. *)
Lemma Split_Join s sep : sep ≠ [] → Join (Split s sep) sep = s.
Proof. intros ?. destruct sep; [done|]. apply genSplit_Join. Qed.

Lemma genSplit_one turns s sep b :
  sep ≠ [] → (length s ≤ turns)%nat → genSplit turns s sep = [b] →
  b = s ∧ Index s sep = None.
Proof.
  intros Hne Hturns. destruct turns as [|turns]; cbn [genSplit].
  - intros [= <-]. split; [done|]. apply Index_None. intros i Hocc.
    apply occurs_length in Hocc; [|done]. destruct sep; [done|]. cbn in *. lia.
  - destruct (Index s sep) as [m|]; [|by intros [= <-]].
    intros [= _ Hg]. by destruct turns; cbn in Hg; [|destruct (Index _ sep)].
Qed.

(** Exactly two pieces: [sep] is found once from the left, and not again
    behind that instance. *)
Lemma Split_two s sep a b :
  sep ≠ [] →
  Split s sep = [a; b] ↔
  Index s sep = Some (length a) ∧ a = take (length a) s ∧
  b = drop (length a + length sep) s ∧ Index b sep = None.
Proof.
  intros Hne. destruct sep as [|c sep']; [done|]. cbn [Split].
  set (sep := c :: sep') in *. split.
  - destruct (length s) as [|turns] eqn:Hlen; [done|]. cbn [genSplit].
    destruct (Index s sep) as [m|] eqn:Hm; [|done]. intros [= <- Hg].
    assert (m ≤ length s)%nat as Hle.
    { apply Index_Some in Hm as [Hocc%occurs_length _]; [lia|done]. }
    apply genSplit_one in Hg as [-> Hnone]; [|done|].
    + by rewrite length_take_le by done.
    + rewrite length_drop. cbn. lia.
  - intros (Hm & Ha & -> & Hnone).
    assert (length a + length sep ≤ length s)%nat as Hle.
    { apply Index_Some in Hm as [Hocc%occurs_length _]; done. }
    destruct (length s) as [|turns] eqn:Hlen; [cbn in Hle; lia|].
    cbn [genSplit]. rewrite Hm, <- Ha. f_equal.
    destruct turns; cbn [genSplit]; [done|]. by rewrite Hnone.
Qed.

Lemma replace_None turns s old new : Index s old = None → replace turns s old new = s.
Proof. intros Hnone. destruct turns; cbn; [done|]. by rewrite Hnone. Qed.

(** Without an instance of [old] in it, [s] is left as it is. *)
Lemma ReplaceAll_absent s old new :
  Contains s old = false → ReplaceAll s old new = s.
Proof.
  unfold Contains. destruct (Index s old) eqn:Hi; [done|]. intros _.
  destruct old; [by rewrite Index_head, bool_decide_eq_true_2 in Hi|].
  by apply replace_None.
Qed.

Lemma occurs_byte c s i : occurs [c] s i ↔ s !! i = Some c.
Proof.
  unfold occurs. cbn [length].
  assert (s !! i = drop i s !! 0%nat) as -> by (by rewrite lookup_drop, Nat.add_0_r).
  destruct (drop i s) as [|c' l]; cbn; [done|]. rewrite take_0.
  split; by intros [= ->].
Qed.

Lemma Index_byte_None c s : Index s [c] = None ↔ c ∉ s.
Proof.
  rewrite Index_None. setoid_rewrite occurs_byte.
  rewrite list_elem_of_lookup. split; [intros Hno [i ?]; by apply (Hno i)|].
  intros Hno i ?. apply Hno. by exists i.
Qed.

Lemma replace_byte turns s c d :
  c ≠ d → (length s ≤ turns)%nat → c ∉ replace turns s [c] [d].
Proof.
  intros Hcd. revert s. induction turns as [|turns IH]; intros s Hlen.
  - destruct s; [|cbn in Hlen; lia]. cbn. apply not_elem_of_nil.
  - cbn [replace]. destruct (Index s [c]) as [m|] eqn:Hm.
    2: { by apply Index_byte_None. }
    apply Index_Some in Hm as [Hocc Hfirst].
    rewrite !elem_of_app, list_elem_of_singleton. intros [Hin|[?|Hin]]; [|done|].
    + apply list_elem_of_lookup in Hin as [i Hi].
      apply lookup_take_Some in Hi as [Hi ?]. by apply (Hfirst i), occurs_byte.
    + revert Hin. apply IH. rewrite length_drop. cbn.
      apply occurs_length in Hocc; [cbn in Hocc; lia|done].
Qed.

(** Replacing every byte [c] by a different byte leaves no [c]. *)
Lemma ReplaceAll_byte s c d : c ≠ d → c ∉ ReplaceAll s [c] [d].
Proof. intros ?. by apply replace_byte. Qed.

End strings_facts.

(** * Facts about the generator *)

Section docs_facts.
Import strings docs.
Variable ToUpper : list ascii → list ascii.
Variable flags : list Flag.

Lemma generate_run (mdFile text : list ascii) :
  generate ToUpper flags mdFile = inr text ↔
  ∃ a b c d,
    Split mdFile genStart = [a; b] ∧ Split mdFile genEnd = [c; d] ∧
    text = (a ++ genStart ++ newline ++ newline) ++ envVarsBlock ToUpper flags ++
           (newline ++ genEnd ++ d).
Proof.
  unfold generate. split.
  - destruct (Split mdFile genStart) as [|a [|b [|]]]; try done.
    destruct (Split mdFile genEnd) as [|c [|d [|]]]; try done.
    cbn. intros [= <-]. by exists a, b, c, d.
  - intros (a & b & c & d & -> & -> & ->). done.
Qed.

(** X16. The generator keeps what the page has around the generated block: the
    text it writes is the text before the start marker, the marker, the
    table, the end marker and the text behind the end marker.  Each marker
    is the only one of its kind in the page. *)
Theorem generate_keeps_the_surroundings (mdFile text : list ascii) :
  generate ToUpper flags mdFile = inr text →
  ∃ a b c d,
    mdFile = a ++ genStart ++ b ∧ Index mdFile genStart = Some (length a) ∧
    Contains b genStart = false ∧
    mdFile = c ++ genEnd ++ d ∧ Index mdFile genEnd = Some (length c) ∧
    Contains d genEnd = false ∧
    text = a ++ genStart ++ newline ++ newline ++ envVarsBlock ToUpper flags ++
           newline ++ genEnd ++ d.
Proof.
  intros (a & b & c & d & Hstart & Hend & ->)%generate_run.
  apply Split_two in Hstart as (Hia & Ha & Hb & Hnb); [|done].
  apply Split_two in Hend as (Hic & Hc & Hd & Hnd); [|done].
  exists a, b, c, d. unfold Contains. rewrite Hnb, Hnd.
  split_and!; try done.
  - apply Index_Some in Hia as [Hocc%occurs_split _]. by rewrite <- Ha, <- Hb in Hocc.
  - apply Index_Some in Hic as [Hocc%occurs_split _]. by rewrite <- Hc, <- Hd in Hocc.
  - by rewrite <- !app_assoc.
Qed.

Lemma genEnd_no_overlap k :
  (0 < k < length genEnd)%nat → drop k genEnd ≠ take (length genEnd - k) genEnd.
Proof.
  intros Hk.
  assert (Hall : Forall (λ k, drop k genEnd ≠ take (length genEnd - k) genEnd)
                   (seq 1 (length genEnd - 1))).
  { refine (bool_decide_unpack _ _). by vm_compute. }
  rewrite List.Forall_forall in Hall. apply Hall, in_seq. lia.
Qed.

(** X17. Running the generator on a page it has written gives that page again,
    if it accepts it. *)
Theorem generate_again (mdFile text text' : list ascii) :
  generate ToUpper flags mdFile = inr text →
  generate ToUpper flags text = inr text' →
  text' = text.
Proof.
  intros (a & b & c & d & Hstart & _ & Htext)%generate_run.
  apply Split_two in Hstart as (Hia & Ha & Hb & _); [|done].
  assert (Hmd : mdFile = a ++ genStart ++ b).
  { pose proof (proj1 (Index_Some _ _ _) Hia) as [Hocc%occurs_split _].
    by rewrite <- Ha, <- Hb in Hocc. }
  rewrite <- !app_assoc in Htext.
  intros (a' & b' & c' & d' & Hstart & Hend & ->)%generate_run.
  apply Split_two in Hstart as (Hia' & Ha' & _ & _); [|done].
  apply Split_two in Hend as (Hic' & _ & Hd' & Hnd'); [|done].
  assert (a' = a) as ->.
  { assert (Index text genStart = Some (length a)) as Hi.
    { apply Index_Some in Hia as [_ Hfirst]. apply Index_Some. split.
      - rewrite Htext. apply occurs_app.
      - intros i Hi Hocc. apply (Hfirst i Hi).
        apply (occurs_take _ _ _ (length a + length genStart)) in Hocc; [|lia].
        apply (occurs_take _ _ _ (length a + length genStart)); [lia|].
        rewrite Hmd. rewrite Htext in Hocc.
        rewrite !(app_assoc a genStart) in *.
        by rewrite <- length_app, take_app_length in *. }
    rewrite Hi in Hia'. injection Hia' as Hlen.
    rewrite Ha', <- Hlen, Htext. by rewrite take_app_length. }
  assert (d' = d) as ->; [|by rewrite Htext, <- !app_assoc].
  set (P := a ++ genStart ++ newline ++ newline ++ envVarsBlock ToUpper flags ++ newline).
  assert (Htext' : text = P ++ genEnd ++ d) by (by rewrite Htext; unfold P; rewrite <- !app_assoc).
  assert (Hocc : occurs genEnd text (length P)) by (rewrite Htext'; apply occurs_app).
  apply Index_Some in Hic' as [Hocc' Hfirst'].
  pose proof (proj1 (Index_None _ _) Hnd') as Hnone. clear Hnd'.
  destruct (Nat.lt_trichotomy (length c') (length P)) as [Hlt|[Heq|Hgt]].
  - exfalso.
    destruct (decide (length P - length c' < length genEnd)%nat) as [Hov|Hfar].
    + apply (genEnd_no_overlap (length P - length c')); [lia|].
      apply (occurs_overlap _ text (length c')); [done| |done].
      by replace (length c' + (length P - length c'))%nat with (length P) by lia.
    + apply (Hnone (length P - length c' - length genEnd)%nat).
      rewrite Hd'. apply occurs_drop.
      by replace (length c' + length genEnd + (length P - length c' - length genEnd))%nat
        with (length P) by lia.
  - rewrite Hd', Heq, Htext'. rewrite app_assoc, <- length_app. by rewrite drop_app_length.
  - by destruct (Hfirst' (length P) Hgt).
Qed.

(** X18. The name of the environment variable of a flag has no hyphen,
    whatever the name of the flag. *)
Theorem envName_has_no_hyphen (f : Flag) : "-"%char ∉ envName ToUpper f.
Proof. unfold envName. by apply (ReplaceAll_byte _ "-"%char "_"%char). Qed.

(** X19. A line that does not hold the documented address is left as it is. *)
Theorem insertDocsLinks_without_address (s : list ascii) :
  Contains s (str "https://karpenter.sh/unspecified/aws/provisioning/#pod-eni-security-groups-for-pods") = false →
  insertDocsLinks s = s.
Proof. intros Hno. unfold insertDocsLinks, docsLinks. cbn [foldl fst snd]. by apply ReplaceAll_absent. Qed.

(** X20. [main] writes nothing unless it was given one argument, could read that
    file and found each marker once in it; then it writes the generated text
    to the file it read. *)
Theorem main_writes_the_file_it_read (Args : list (list ascii))
    (ReadFile : list ascii → option (list ascii)) (Create : list ascii → bool)
    (file text : list ascii) :
  main ToUpper flags Args ReadFile Create = Wrote file text →
  ∃ program mdFile,
    Args = [program; file] ∧ ReadFile file = Some mdFile ∧
    generate ToUpper flags mdFile = inr text ∧ Create file = true.
Proof.
  unfold main. destruct Args as [|program [|name [|]]]; try done. cbn.
  destruct (ReadFile name) as [mdFile|] eqn:Hread; [|done].
  destruct (generate ToUpper flags mdFile) as [fatal|t] eqn:Hgen.
  - intros ->. unfold generate in Hgen.
    destruct (negb _); [done|]. by destruct (negb _).
  - destruct (Create name) eqn:Hcreate; [|done]. intros [= <- <-].
    by exists program, mdFile.
Qed.
(** X21. A page without the start marker is refused before anything is
    written: [main] ends with the fatal error that counts no start marker,
    whatever the page holds of the end marker. *)
Theorem main_refuses_a_page_without_start_marker (Args : list (list ascii))
    (ReadFile : list ascii → option (list ascii)) (Create : list ascii → bool)
    (program file mdFile : list ascii) :
  Args = [program; file] → ReadFile file = Some mdFile →
  Contains mdFile genStart = false →
  main ToUpper flags Args ReadFile Create = FatalStart 0.
Proof.
  intros -> Hread Hno. unfold main. cbn. rewrite Hread.
  unfold Contains in Hno. destruct (Index mdFile genStart) eqn:Hi; [done|].
  unfold generate. replace (Split mdFile genStart) with [mdFile]; [done|].
  change (Split mdFile genStart) with (genSplit (length mdFile) mdFile genStart).
  destruct (length mdFile); cbn [genSplit]; [done|]. by rewrite Hi.
Qed.
End docs_facts.

(** * Facts about the release version *)

(** X22. The release version never has a hyphen in it: a version with a hyphen
    is reported as "preview", any other version as it is. *)
Theorem GetReleaseVersion_has_no_hyphen (Version : list ascii) :
  ("-"%char ∉ project.GetReleaseVersion Version) ∧
  (project.GetReleaseVersion Version = Version ↔ "-"%char ∉ Version).
Proof.
  unfold project.GetReleaseVersion, strings.Contains.
  change (strings.str "-") with ["-"%char].
  assert (Hpreview : "-"%char ∉ strings.str "preview").
  { refine (bool_decide_unpack _ _). by vm_compute. }
  destruct (strings.Index Version ["-"%char]) as [m|] eqn:Hi.
  - split; [done|]. split; [intros <-; done|].
    intros Hno%Index_byte_None. congruence.
  - apply Index_byte_None in Hi. done.
Qed.


(** * More on the AL2 family *)

Section al2_facts.
Variables nvidia amd neuron : ResourceName.
Variable arm64 : string.
Variable a : amifamily.AL2.

Lemma append_bytes (s1 s2 : string) :
  String.list_ascii_of_string (s1 +:+ s2) =
  String.list_ascii_of_string s1 ++ String.list_ascii_of_string s2.
Proof.
  induction s1 as [|c s1 IH]; [done|].
  change (c :: String.list_ascii_of_string (s1 +:+ s2) =
          c :: (String.list_ascii_of_string s1 ++ String.list_ascii_of_string s2)).
  by rewrite IH.
Qed.

Lemma append_inv_tail (s1 s2 r : string) : s1 +:+ r = s2 +:+ r → s1 = s2.
Proof.
  intros H%(f_equal String.list_ascii_of_string).
  rewrite !append_bytes in H. apply app_inv_tail in H.
  apply (f_equal String.string_of_list_ascii) in H.
  by rewrite !String.string_of_list_ascii_of_string in H.
Qed.

(** X23. Two versions never share an alias: for one instance type, different
    versions give different aliases. *)
Theorem SSMAlias_tells_versions_apart (version version' : string) (it : InstanceType) :
  version ≠ version' →
  amifamily.SSMAlias nvidia neuron arm64 a version it ≠
  amifamily.SSMAlias nvidia neuron arm64 a version' it.
Proof.
  intros Hne H. apply Hne. unfold amifamily.SSMAlias in H. cbn zeta in H.
  apply (inj (String.append _)) in H. by apply append_inv_tail in H.
Qed.

(** X24. An instance type with NVIDIA GPUs or Neuron devices gets the alias of
    the GPU image, whatever its architecture, and, first in the list, the
    runtime dockerd. *)
Theorem SSMAlias_gpu_goes_with_dockerd (version : string) (it : InstanceType)
    (rest : list InstanceType) :
  rl_index (it_Resources it) nvidia ≠ 0 ∨ rl_index (it_Resources it) neuron ≠ 0 →
  amifamily.SSMAlias nvidia neuron arm64 a version it =
    "/aws/service/eks/optimized-ami/" +:+ version +:+
    "/amazon-linux-2-gpu/recommended/image_id" ∧
  amifamily.containerRuntime nvidia amd neuron a (it :: rest) = Some "dockerd".
Proof.
  intros Hgpu. unfold amifamily.SSMAlias, amifamily.containerRuntime, resources.IsZero.
  cbn [lookup list_lookup].
  destruct (Z.eqb_spec (rl_index (it_Resources it) nvidia) 0);
    destruct (Z.eqb_spec (rl_index (it_Resources it) neuron) 0);
    try (by destruct Hgpu); cbn [negb orb andb]; rewrite ?andb_false_r; done.
Qed.

(** X25. The alias does not look at AMD GPUs, the runtime does: adding AMD GPUs
    to an instance type leaves its alias as it was and makes its runtime
    dockerd. *)
Theorem SSMAlias_ignores_AMD_GPU (version : string) (it : InstanceType)
    (rest : list InstanceType) (q : Quantity) :
  amd ≠ nvidia → amd ≠ neuron →
  amifamily.SSMAlias nvidia neuron arm64 a version (with_quantity amd q it) =
    amifamily.SSMAlias nvidia neuron arm64 a version it ∧
  (q ≠ 0 →
   amifamily.containerRuntime nvidia amd neuron a (with_quantity amd q it :: rest) =
     Some "dockerd").
Proof.
  intros Hnv Hne. split.
  - unfold amifamily.SSMAlias, with_quantity, rl_index. cbn [it_Resources it_Architecture].
    by rewrite !lookup_insert_ne.
  - intros Hq. unfold amifamily.containerRuntime, with_quantity, rl_index, resources.IsZero.
    cbn [lookup list_lookup it_Resources]. rewrite lookup_insert_eq. cbn [default]. change (id q) with q.
    destruct (Z.eqb_spec q 0); [done|]. by rewrite andb_false_r.
Qed.

End al2_facts.

(** * The properties on the small cluster *)

Import Cluster.

(** ** Container runtime *)

Example containerRuntime_of_gpu_first :
  amifamily.containerRuntime "nvidia.com/gpu" "amd.com/gpu" "aws.amazon.com/neuron"
    (amifamily.mkAL2 None) [p3; m5] = Some "dockerd" ∧
  amifamily.containerRuntime "nvidia.com/gpu" "amd.com/gpu" "aws.amazon.com/neuron"
    (amifamily.mkAL2 None) [m5; p3] = Some "containerd" ∧
  amifamily.containerRuntime "nvidia.com/gpu" "amd.com/gpu" "aws.amazon.com/neuron"
    (amifamily.mkAL2 None) [] = None.
Proof. by vm_compute. Qed.

(** ** Launch *)

(** The node was planned from a snapshot with room left; the store says the
    limit is passed: no machine. *)
Lemma launch_stops_at_exceeded_limits_on_crowded :
  launch general_node crowded =
    (Some (errorString "cpu resource usage exceeds limit"), crowded,
     [EvGetProvisioner (mkObjectKey "" "default")]).
Proof.
  apply (launch_stops_at_exceeded_limits general_node crowded full
           (errorString "cpu resource usage exceeds limit"));
    vm_compute; reflexivity.
Defined.

(** The usage read from the store (8) is below the limit (10): the machine
    is created, whatever the planned pods (cpu 4) will add. *)
Example launch_checks_recorded_usage_only :
  (launch general_node calm).1.1 = None ∧
  cl_nodes (launch general_node calm).1.2 = ["node-m5.large"] ∧
  cl_bound (launch general_node calm).1.2 = [("web", "node-m5.large")].
Proof. by vm_compute. Qed.

Lemma launch_registers_idempotently_on_raced :
  (launch general_node raced).1.1 = None ∧
  cl_bound (launch general_node raced).1.2 = [("web", "node-m5.large")].
Proof.
  erewrite (launch_registers_idempotently general_node raced _ _ roomy _ _
              (StatusError StatusReasonAlreadyExists "node already exists"));
    [|reflexivity..].
  by vm_compute.
Defined.

(** A launch that got to bind returns nil though the binding of "batch"
    fails. *)
Lemma bind_always_returns_nil_on_contended :
  (launch gpu_node contended).1.1 = None ∧
  EvLog Error "Failed to bind %s/%s to %s, %s"
    (Some (StatusError StatusReasonConflict "pod is already assigned"))
    ∈ (launch gpu_node contended).2.
Proof.
  split.
  - apply (proj2 bind_always_returns_nil gpu_node contended).
    apply list_elem_of_lookup_2 with 3%nat. vm_compute. reflexivity.
  - apply list_elem_of_lookup_2 with 6%nat. vm_compute. reflexivity.
Defined.

(** ** Bind *)



(** ** A pass *)

(** Without provisioners the pass stops before the scheduler. *)
Lemma schedule_fails_without_provisioners_on_unconfigured :
  schedule [web; api; batch] unconfigured =
    (Err (errorString "no provisioners found"), unconfigured, [EvListProvisioners]) ∧
  (provision unconfigured).1.1 = Some (errorString "no provisioners found") ∧
  (∀ solved, EvSolve solved ∉ (provision unconfigured).2).
Proof.
  destruct (schedule_fails_without_provisioners [web; api; batch] unconfigured)
    as [Hschedule Hpass]; [reflexivity|].
  destruct (Hpass unconfigured "1s") as (Hrun & Hsolve & _);
    [reflexivity|by vm_compute|discriminate|].
  split; [exact Hschedule|]. split; [by rewrite Hrun|exact Hsolve].
Defined.

(** Of the seven pods of the store, the nameless one, the one with a lost
    claim, the running one and the daemon's are left out. *)
Lemma getPods_keeps_exactly_the_schedulable_on_calm :
  (getPods calm).1.1 = Ok [web; api; batch] ∧
  length (getPods calm).2 = 3%nat.
Proof.
  rewrite (getPods_keeps_exactly_the_schedulable calm (cl_pods calm));
    [by vm_compute|reflexivity].
Defined.

(** Both daemons count for the untainted provisioner, only the tolerating
    one for the tainted provisioner, whose startup taint nobody tolerates. *)
Lemma getDaemonOverhead_counts_admitted_daemons_on_calm :
  ∃ overhead,
    getDaemonOverhead deref [0; 1]%nat calm = (Ok overhead, calm, [EvListDaemonSets]) ∧
    overhead !! 0%nat = Some {["cpu" := 4]} ∧
    overhead !! 1%nat = Some {["cpu" := 3]} ∧
    overhead !! 2%nat = None.
Proof.
  destruct (getDaemonOverhead_counts_admitted_daemons deref [0; 1]%nat calm
              (cl_daemonsets calm)) as (overhead & Hrun & Hlookup & _);
    [reflexivity|].
  exists overhead. split; [exact Hrun|].
  rewrite !Hlookup. by vm_compute.
Defined.



(** The looks at the context that the conditions of C3 and C4 speak of, on
    the small cluster: all live in the calm cluster, all cancelled once the
    context is cancelled. *)
Example pick_up_worlds_on_the_small_cluster :
  Forall (λ w, ctx_cancelled w = false)
    (pick_up_worlds provision_piece [gpu_node; general_node] calm) ∧
  Forall (λ w, ctx_cancelled w = false)
    (pick_up_worlds (bind_piece gpu_machine) [batch; api] calm) ∧
  Forall (λ w, ctx_cancelled w = true)
    (pick_up_worlds (bind_piece gpu_machine) [batch] (stopping 0)).
Proof. split_and!; repeat constructor. Qed.

(** ** The loop *)

(** Two passes fail on the store, then the context is cancelled and the
    loop is left. *)
Lemma NewProvisioner_loop_stops_only_on_cancellation_on_down :
  (NewProvisioner_loop 5 down).1.1 = true ∧
  ctx_cancelled (NewProvisioner_loop 5 down).1.2 = true ∧
  length (List.filter
            (λ e, match e with EvLog Error _ _ => true | _ => false end)
            (NewProvisioner_loop 5 down).2) = 2%nat.
Proof.
  split; [by vm_compute|]. split; [|by vm_compute].
  apply (proj1 NewProvisioner_loop_stops_only_on_cancellation 5%nat down _
           (NewProvisioner_loop 5 down).2).
  by vm_compute.
Defined.

(** ** More on binding and launching *)

(** With the context cancelled, nothing is decided for "api" or "batch". *)
Lemma bind_without_work_on_stopping :
  bind gpu_machine [api; batch] (stopping 0) = (None, stopping 0, []).
Proof. apply bind_without_work. right. reflexivity. Defined.

(** The context is cancelled while the machine is created: the registration
    of the node fails and no pod is bound. *)
Lemma launch_error_binds_nothing_on_stopping :
  (launch general_node (stopping 1)).1.1 = Some (wrapError "creating node %s" canceled) ∧
  decisions (launch general_node (stopping 1)).2 = [].
Proof.
  split; [by vm_compute|].
  apply (launch_error_binds_nothing general_node (stopping 1)
           (wrapError "creating node %s" canceled)).
  by vm_compute.
Defined.

Lemma launch_binds_to_registered_node_on_calm :
  ∃ merged pod,
    registrations (launch gpu_node calm).2 = [merged] ∧
    pod ∈ sn_Pods gpu_node ∧
    binding_for gpu_machine batch = binding_for merged pod ∧
    or_Name (b_Target (binding_for gpu_machine batch)) = node_Name merged.
Proof.
  apply (launch_binds_to_registered_node gpu_node calm "default").
  apply list_elem_of_lookup_2 with 5%nat. by vm_compute.
Defined.

(** ** More on scheduling *)

Lemma schedule_nodes_come_from_Solve_on_calm :
  ∃ t pods',
    (schedule [web; api; batch] calm).2 = t ++ [EvSolve pods'] ∧
    (∀ ps, EvSolve ps ∉ t) ∧
    Forall2 (λ pod pod', volumeTopology_Inject calm pod = Ok pod') [web; api; batch] pods'.
Proof.
  apply (schedule_nodes_come_from_Solve [web; api; batch] calm [general_node; gpu_node]).
  by vm_compute.
Defined.

(** The catalogue has nothing for the second of three provisioners: the
    third is not looked at. *)
Lemma schedule_stops_at_first_failing_provisioner_on_incidents :
  @schedule _ Incidents.env _ [web] Incidents.stale =
    (Err (wrapError "getting instance types" Incidents.outage), Incidents.stale,
     [EvListProvisioners; EvGetRequirements None; EvGetInstanceTypes None;
      EvGetRequirements (Some "retired"); EvGetInstanceTypes (Some "retired")]) ∧
  @schedule _ Incidents.env _ [web] Incidents.early =
    (Err (wrapError "getting provider requirements" Incidents.outage), Incidents.early,
     [EvListProvisioners; EvGetRequirements None; EvGetInstanceTypes None;
      EvGetRequirements (Some "unknown")]).
Proof.
  split.
  - pose proof (schedule_stops_at_first_failing_provisioner (Env := Incidents.env)
                  [web] Incidents.stale [roomy] Incidents.retired [gpu] Incidents.outage)
      as Hrun.
    destruct Hrun as [_ Hrun]; [reflexivity|repeat constructor; by eexists _, _|].
    apply (Hrun (mkRequirements [])); reflexivity.
  - pose proof (schedule_stops_at_first_failing_provisioner (Env := Incidents.env)
                  [web] Incidents.early [roomy] Incidents.unknown [gpu] Incidents.outage)
      as Hrun.
    destruct Hrun as [Hrun _]; [reflexivity|repeat constructor; by eexists _, _|].
    apply Hrun; reflexivity.
Defined.

Lemma schedule_range_rewrites_labels_and_requirements_only_on_calm :
  ∃ instanceTypes items',
    (schedule_range [roomy; gpu] ∅ [] calm).1.1 = Ok (instanceTypes, items') ∧
    Forall2
      (λ p p',
         prov_ObjectMeta p' = prov_ObjectMeta p ∧ Status p' = Status p ∧
         Limits_ (Spec p') = Limits_ (Spec p) ∧
         Taints (Constraints_ (Spec p')) = Taints (Constraints_ (Spec p)) ∧
         StartupTaints (Constraints_ (Spec p')) = StartupTaints (Constraints_ (Spec p)) ∧
         KubeletConfiguration_ (Constraints_ (Spec p')) =
           KubeletConfiguration_ (Constraints_ (Spec p)) ∧
         Provider (Constraints_ (Spec p')) = Provider (Constraints_ (Spec p)) ∧
         Labels (Constraints_ (Spec p')) =
           UnionStringMaps [Labels (Constraints_ (Spec p));
                            {[ProvisionerNameLabelKey := prov_Name p]}])
      [roomy; gpu] items'.
Proof.
  destruct (schedule_range [roomy; gpu] ∅ [] calm).1.1 as [[its items']|e] eqn:Hrun;
    [|by vm_compute in Hrun].
  destruct (schedule_range_rewrites_labels_and_requirements_only _ _ _ _ _ _ Hrun)
    as (more & -> & Hall).
  by exists its, more.
Defined.

(** ** More on a pass *)

Lemma getPods_fails_with_the_listing_on_down :
  getPods down = (Err (wrapError "listing pods" unavailable), down, [EvListPods ""]).
Proof. apply (proj1 (getPods_fails_with_the_listing down)). reflexivity. Defined.

Lemma provision_error_launches_nothing_on_unconfigured :
  launches (provision unconfigured).2 = [].
Proof.
  apply (provision_error_launches_nothing unconfigured
           (errorString "no provisioners found")).
  by vm_compute.
Defined.

(** Nothing to schedule: the pass waits, lists the pods and broadcasts. *)
Lemma provision_without_pods_on_idle :
  provision Incidents.idle =
    (None, tick Incidents.idle,
     [EvLog Info "Waiting for unschedulable pods" None; EvBatcherWait;
      EvListPods ""; EvCondBroadcast]).
Proof.
  rewrite (provision_without_pods Incidents.idle); by vm_compute.
Defined.

(** The store is down: no overhead, the error of the listing wrapped. *)
Lemma getDaemonOverhead_fails_with_the_listing_on_down :
  (getDaemonOverhead deref [0; 1]%nat down).1.1 =
    Err (wrapError "listing daemonsets" unavailable).
Proof.
  apply (proj2 (proj2 (getDaemonOverhead_fails_with_the_listing deref [0; 1]%nat down))).
  by exists unavailable.
Defined.

(** ** The generator on the sample page *)

Lemma generate_keeps_the_surroundings_on_page :
  ∃ text a b c d,
    docs.generate Sample.upper Sample.flags Sample.page = inr text ∧
    Sample.page = a ++ docs.genStart ++ b ∧
    Sample.page = c ++ docs.genEnd ++ d ∧
    text = a ++ docs.genStart ++ docs.newline ++ docs.newline ++
           docs.envVarsBlock Sample.upper Sample.flags ++
           docs.newline ++ docs.genEnd ++ d.
Proof.
  eassert (Hrun : docs.generate Sample.upper Sample.flags Sample.page = inr _)
    by (vm_compute; reflexivity).
  destruct (generate_keeps_the_surroundings _ _ _ _ Hrun)
    as (a & b & c & d & ? & _ & _ & ? & _ & _ & ?).
  eexists _, a, b, c, d. split; [exact Hrun|]. done.
Defined.

Lemma generate_again_on_page :
  ∃ text,
    docs.generate Sample.upper Sample.flags Sample.page = inr text ∧
    docs.generate Sample.upper Sample.flags text = inr text.
Proof.
  eassert (Hrun : docs.generate Sample.upper Sample.flags Sample.page = inr _)
    by (vm_compute; reflexivity).
  eexists. split; [exact Hrun|].
  match goal with
  | |- ?again = _ => eassert (Hagain : again = inr _) by (vm_compute; reflexivity)
  end.
  rewrite Hagain. exact (f_equal inr (generate_again _ _ _ _ _ Hrun Hagain)).
Defined.

Example envName_of_cluster_name :
  docs.envName Sample.upper (docs.mkFlag (strings.str "cluster-name") [] []) =
    strings.str "CLUSTER_NAME".
Proof. by vm_compute. Qed.

Lemma insertDocsLinks_without_address_on_header :
  docs.insertDocsLinks (strings.str "|--|--|--|") = strings.str "|--|--|--|".
Proof. apply insertDocsLinks_without_address. by vm_compute. Defined.

Lemma main_writes_the_file_it_read_on_page :
  ∃ text program mdFile,
    docs.main Sample.upper Sample.flags
      [strings.str "gen"; strings.str "configuration.md"] Sample.files (λ _, true) =
      docs.Wrote (strings.str "configuration.md") text ∧
    program = strings.str "gen" ∧
    Sample.files (strings.str "configuration.md") = Some mdFile ∧
    docs.generate Sample.upper Sample.flags mdFile = inr text.
Proof.
  eassert (Hrun : docs.main Sample.upper Sample.flags
                    [strings.str "gen"; strings.str "configuration.md"]
                    Sample.files (λ _, true) = docs.Wrote _ _)
    by (vm_compute; reflexivity).
  destruct (main_writes_the_file_it_read _ _ _ _ _ _ _ Hrun)
    as (program & mdFile & [= <- ] & Hread & Hgen & _).
  eexists _, _, mdFile. split; [exact Hrun|]. done.
Defined.

Lemma main_refuses_a_page_without_start_marker_on_plain_page :
  docs.main Sample.upper Sample.flags
    [strings.str "gen"; strings.str "README.md"]
    (λ _, Some (strings.str "# Configuration")) (λ _, true) = docs.FatalStart 0.
Proof.
  by apply (main_refuses_a_page_without_start_marker Sample.upper Sample.flags _ _ _
              (strings.str "gen") (strings.str "README.md")
              (strings.str "# Configuration")).
Defined.

(** ** The AL2 aliases *)

Lemma SSMAlias_tells_versions_apart_on_p3 :
  amifamily.SSMAlias "nvidia.com/gpu" "aws.amazon.com/neuron" "arm64"
    (amifamily.mkAL2 None) "1.21" p3 ≠
  amifamily.SSMAlias "nvidia.com/gpu" "aws.amazon.com/neuron" "arm64"
    (amifamily.mkAL2 None) "1.22" p3.
Proof. by apply SSMAlias_tells_versions_apart. Defined.

Lemma SSMAlias_gpu_goes_with_dockerd_on_p3 :
  amifamily.SSMAlias "nvidia.com/gpu" "aws.amazon.com/neuron" "arm64"
    (amifamily.mkAL2 None) "1.21" p3 =
    "/aws/service/eks/optimized-ami/1.21/amazon-linux-2-gpu/recommended/image_id" ∧
  amifamily.containerRuntime "nvidia.com/gpu" "amd.com/gpu" "aws.amazon.com/neuron"
    (amifamily.mkAL2 None) [p3; m5] = Some "dockerd".
Proof.
  apply (SSMAlias_gpu_goes_with_dockerd "nvidia.com/gpu" "amd.com/gpu"
           "aws.amazon.com/neuron" "arm64" (amifamily.mkAL2 None) "1.21" p3 [m5]).
  left. by vm_compute.
Defined.

Lemma SSMAlias_ignores_AMD_GPU_on_m5 :
  amifamily.SSMAlias "nvidia.com/gpu" "aws.amazon.com/neuron" "arm64"
    (amifamily.mkAL2 None) "1.21" (with_quantity "amd.com/gpu" 1 m5) =
    "/aws/service/eks/optimized-ami/1.21/amazon-linux-2/recommended/image_id" ∧
  amifamily.containerRuntime "nvidia.com/gpu" "amd.com/gpu" "aws.amazon.com/neuron"
    (amifamily.mkAL2 None) [with_quantity "amd.com/gpu" 1 m5] = Some "dockerd".
Proof.
  destruct (SSMAlias_ignores_AMD_GPU "nvidia.com/gpu" "amd.com/gpu"
              "aws.amazon.com/neuron" "arm64" (amifamily.mkAL2 None) "1.21" m5 [] 1)
    as [Halias Hruntime]; [done|done|].
  split; [by rewrite Halias|by apply Hruntime].
Defined.
